(** * slack-archive: the incremental synchronizer and the paginated renderer

    A shallow embedding of [src/download-messages.ts] (entity cache,
    channel directory, message synchronizer, thread synchronizer) and of
    the pagination and channel-link parts of [src/create-html.tsx], with
    the properties of the specification stated over it.

    Conventions of the embedding.
    - An optional field [f?: T] is an [option T]; JavaScript truthiness of
      such a field is [truthy] (strings) or [truthyNum] (numbers).
    - A JS object used as a dictionary ([Users]) is a [gmap string _].
    - Asynchronous, effectful functions live in the state monad [M]: the
      state holds the one shared [users] object and the log of remote
      API calls issued so far.  The remote itself is a parameter
      ([Remote]) and always answers: a request that fails aborts the run
      and is outside the model.  Progress display (ora, console) is not
      modelled.
    - Strings are the UTF-8 encodings of the JS strings.  A number is the
      integer value of a double, NaN or an infinity; [parseInt] rounds the
      integer it reads to the nearest double (ties to even).  Where
      ECMAScript leaves the digits after the 20th significant one to the
      implementation, the model reads them exactly; a negative zero is 0. *)

From Stdlib Require Import ZArith Ascii String List Sorted Permutation.
From stdpp Require Import base option list strings pretty gmap sorting.

Local Open Scope Z_scope.

(** ** JavaScript values *)

(** A JS number as far as this program needs it: an integer-valued double,
    NaN, or an infinity. *)
Inductive number :=
| Num (z : Z)
| NaN
| Infinity (negative : bool).

(** The double nearest to an integer, ties to the even significand of 53
    bits; beyond the largest double, an infinity. *)
Definition toDouble (n : Z) : number :=
  let a := Z.abs n in
  if a <? 2 ^ 53 then Num n
  else
    let shift := Z.log2 a - 52 in
    let q := Z.shiftr a shift in
    let rest := a mod 2 ^ shift in
    let half := 2 ^ (shift - 1) in
    let q := if (half <? rest) || ((rest =? half) && Z.odd q) then q + 1 else q in
    let v := q * 2 ^ shift in
    if 2 ^ 1024 <=? v then Infinity (n <? 0) else Num (Z.sgn n * v).

Definition truthy (s : option string) : bool :=
  match s with
  | Some s => negb (String.eqb s "")
  | None => false
  end.

Definition truthyNum (n : option Z) : bool :=
  match n with
  | Some z => negb (z =? 0)
  | None => false
  end.

(** [a || b] on optional strings. *)
Definition js_or (a b : option string) : option string :=
  if truthy a then a else b.

Definition digitValue (c : ascii) : option Z :=
  let n := Z.of_N (N_of_ascii c) in
  if (48 <=? n) && (n <=? 57) then Some (n - 48) else None.

(** The white space and line terminators of ECMAScript, by the length of
    their UTF-8 encoding: U+0009 to U+000D and U+0020; U+00A0; U+1680,
    U+2000 to U+200A, U+2028, U+2029, U+202F, U+205F, U+3000 and U+FEFF. *)
Definition isWhiteSpace (c : ascii) : bool :=
  let n := N_of_ascii c in
  ((9 <=? n) && (n <=? 13) || (n =? 32))%N.

Definition isWhiteSpace2 (c1 c2 : ascii) : bool :=
  ((N_of_ascii c1 =? 194) && (N_of_ascii c2 =? 160))%N.

Definition isWhiteSpace3 (c1 c2 c3 : ascii) : bool :=
  let '(a, b, c) := (N_of_ascii c1, N_of_ascii c2, N_of_ascii c3) in
  ((a =? 225) && (b =? 154) && (c =? 128)
   || (a =? 226) && (b =? 128)
      && ((128 <=? c) && (c <=? 138) || (c =? 168) || (c =? 169) || (c =? 175))
   || (a =? 226) && (b =? 129) && (c =? 159)
   || (a =? 227) && (b =? 128) && (c =? 128)
   || (a =? 239) && (b =? 187) && (c =? 191))%N.

Fixpoint trimStart (s : string) : string :=
  match s with
  | String c r =>
      if isWhiteSpace c then trimStart r
      else
        match r with
        | String c2 r2 =>
            if isWhiteSpace2 c c2 then trimStart r2
            else
              match r2 with
              | String c3 r3 => if isWhiteSpace3 c c2 c3 then trimStart r3 else s
              | EmptyString => s
              end
        | EmptyString => s
        end
  | EmptyString => s
  end.

(** Value of the longest prefix of decimal digits, [None] when it is empty. *)
Fixpoint digitsPrefix (s : string) (acc : option Z) : option Z :=
  match s with
  | String c r =>
      match digitValue c with
      | Some d => digitsPrefix r (Some (10 * default 0 acc + d))
      | None => acc
      end
  | EmptyString => acc
  end.

(** [parseInt(s, 10)]. *)
Definition parseInt (s : string) : number :=
  let t := trimStart s in
  let '(sign, body) :=
    match t with
    | String "-" r => (-1, r)
    | String "+" r => (1, r)
    | _ => (1, t)
    end in
  match digitsPrefix body None with
  | Some n => toDouble (sign * n)
  | None => NaN
  end.

(** ** Data model (interfaces.ts) *)

Record User := {
  user_id : option string;
  user_name : option string;
  user_real_name : option string;
}.

(** [type Users = Record<string, User>] *)
Abbreviation Users := (gmap string User).

(** The fields of Slack's [Message] that the synchronizer reads. *)
Record Message := {
  ts : option string;
  user : option string;
  bot_id : option string;
  thread_ts : option string;
  reply_count : option Z;
  text : option string;
}.

(** [interface ArchiveMessage extends SlackMessage { replies?: ... }] *)
Record ArchiveMessage := {
  base : Message;
  replies : option (list Message);
}.

(** A message as delivered by the remote carries no [replies]. *)
Definition archive (m : Message) : ArchiveMessage :=
  {| base := m; replies := None |}.

Definition with_replies (m : ArchiveMessage) (rs : list Message) : ArchiveMessage :=
  {| base := base m; replies := Some rs |}.

Record Channel := {
  id : option string;
  name : option string;
  channel_user : option string;
  is_im : bool;
  is_mpim : bool;
}.

(** [downloadUser] takes [item: Message | any]: anything with the two
    author fields. *)
Class HasAuthor (A : Type) := {
  author_user : A → option string;
  author_bot_id : A → option string;
}.

#[export] Instance Message_author : HasAuthor Message :=
  {| author_user := user; author_bot_id := bot_id |}.
#[export] Instance ArchiveMessage_author : HasAuthor ArchiveMessage :=
  {| author_user := λ m, user (base m); author_bot_id := λ m, bot_id (base m) |}.
#[export] Instance Channel_author : HasAuthor Channel :=
  {| author_user := channel_user; author_bot_id := λ _, None |}.

(** ** The remote and the effects *)

Inductive IdentifierType := KUser | KBot.

(** One page of [conversations.history]; [messages] may be absent. *)
Record HistoryPage := { page_messages : option (list Message) }.

Record Remote := {
  (** [paginate("conversations.history", {channel, oldest})] *)
  conversations_history : string → number → list HistoryPage;
  (** [conversations.replies({channel, ts, oldest}).messages] *)
  conversations_replies : string → string → option string → option (list Message);
  (** [apiCall(`${type}s.info`, {[type]: id})[type]] *)
  entity_info : IdentifierType → string → option User;
}.

Inductive ApiCall :=
| HistoryFetch (channel : string) (oldest : number)
| RepliesFetch (channel : string) (ts : string) (oldest : option string)
| InfoLookup (kind : IdentifierType) (identifier : string).

Record DlState := {
  st_users : Users;
  st_calls : list ApiCall;
}.

(** The state monad the asynchronous functions run in. *)
Definition StateM (S A : Type) : Type := S → A * S.

#[export] Instance StateM_ret {S} : MRet (StateM S) := λ A a s, (a, s).
#[export] Instance StateM_bind {S} : MBind (StateM S) :=
  λ A B f m s, let '(a, s') := m s in f a s'.

(** [for (const x of l) { body(x) }] *)
Fixpoint for_each {S A} (l : list A) (body : A → StateM S unit) : StateM S unit :=
  match l with
  | [] => mret tt
  | x :: rest => _ ← body x; for_each rest body
  end.

Abbreviation M := (StateM DlState).

Definition getUsers : M Users := λ s, (st_users s, s).
Definition setUser (k : string) (u : User) : M unit :=
  λ s, (tt, {| st_users := <[k := u]> (st_users s); st_calls := st_calls s |}).
Definition call (c : ApiCall) : M unit :=
  λ s, (tt, {| st_users := st_users s; st_calls := st_calls s ++ [c] |}).

(** ** downloadUser *)

Definition identifierOf {A} `{HasAuthor A} (item : A) : option string :=
  js_or (author_user item) (author_bot_id item).

Definition identifierTypeOf {A} `{HasAuthor A} (item : A) : IdentifierType :=
  if truthy (author_user item) then KUser else KBot.

Definition downloadUser {A} `{HasAuthor A} (R : Remote) (item : A) : M (option User) :=
  let identifier := identifierOf item in
  let identifierType := identifierTypeOf item in
  match identifier with
  | Some ident =>
      if negb (truthy identifier) then mret None
      else
        users ← getUsers;
        match users !! ident with
        | Some u => mret (Some u)
        | None =>
            _ ← call (InfoLookup identifierType ident);
            match entity_info R identifierType ident with
            | Some u => _ ← setUser ident u; mret (Some u)
            | None => mret None
            end
        end
  | None => mret None
  end.

(** ** downloadMessages *)

Record DownloadMessagesResult := {
  messages : list ArchiveMessage;
  new : nat;
}.

(** [!!input.messages]: an array, even an empty one, is truthy. *)
Definition isConversation (page : HistoryPage) : bool :=
  match page_messages page with
  | Some _ => true
  | None => false
  end.

(** [a || d] where [d] is a string literal. *)
Definition js_or_str (a : option string) (d : string) : string :=
  match a with
  | Some s => if truthy a then s else d
  | None => d
  end.

(** The [oldest] argument of the history request. *)
Definition historyCursor (stored : list ArchiveMessage) : number :=
  match stored with
  | m :: _ => parseInt (js_or_str (ts (base m)) "0")
  | [] => Num 0
  end.

(** The body of the [for await] loop: count the page, then
    [result.messages.unshift(...page.messages)]. *)
Definition mergePage (result : DownloadMessagesResult) (page : HistoryPage)
  : DownloadMessagesResult :=
  if isConversation page then
    let pageMessages := default [] (page_messages page) in
    {| messages := (archive <$> pageMessages) ++ messages result;
       new := (new result + length pageMessages)%nat |}
  else result.

Definition downloadMessages (R : Remote)
    (getMessages : option string → list ArchiveMessage)
    (channel : Channel) (i channelCount : nat) : M DownloadMessagesResult :=
  let result := {| messages := []; new := 0 |} in
  match id channel with
  | Some cid =>
      if negb (truthy (id channel)) then mret result
      else
        let result := {| messages := getMessages (Some cid); new := 0 |} in
        let oldest := historyCursor (messages result) in
        _ ← call (HistoryFetch cid oldest);
        mret (foldl mergePage result (conversations_history R cid oldest))
  | None => mret result
  end.

(** ** downloadReplies *)

(** [message.replies && message.replies.length >= message.reply_count] *)
Definition haveAllReplies (message : ArchiveMessage) (count : Z) : bool :=
  match replies message with
  | Some rs => count <=? Z.of_nat (length rs)
  | None => false
  end.

Definition downloadReplies (R : Remote) (channel : Channel)
    (message : ArchiveMessage) : M (list Message) :=
  match id channel, ts (base message) with
  | Some cid, Some mts =>
      if negb (truthy (id channel)) || negb (truthy (ts (base message)))
      then mret []
      else if negb (truthyNum (reply_count (base message))) then mret []
      else if haveAllReplies message (default 0 (reply_count (base message)))
      then mret (default [] (replies message))
      else
        let stored := default [] (replies message) in
        let oldest :=
          match last stored with
          | Some r => ts r
          | None => Some "0"
          end in
        _ ← call (RepliesFetch cid mts oldest);
        mret (drop 1 (default [] (conversations_replies R cid mts oldest)))
  | _, _ => mret []
  end.

(** ** downloadExtras *)

(** Modelled from the spec: [isThread] of threads.ts, which is not part of
    the sources at hand.  "A message with [reply_count > 0] and whose own
    timestamp equals its thread-anchor timestamp is a thread parent." *)
Definition isThread (message : ArchiveMessage) : bool :=
  match reply_count (base message) with
  | Some n => (0 <? n) && bool_decide (ts (base message) = thread_ts (base message))
  | None => false
  end.

(** One iteration of the loop over [messages]; the message object is
    updated in place, so the iteration returns its new contents. *)
Definition downloadExtrasStep (R : Remote) (channel : Channel)
    (message : ArchiveMessage) : M ArchiveMessage :=
  message ← (if isThread message
             then rs ← downloadReplies R channel message;
                  mret (with_replies message rs)
             else mret message);
  let identifier := identifierOf message in
  users ← getUsers;
  _ ← match identifier with
      | Some ident =>
          if truthy identifier && bool_decide (users !! ident = None)
          then usr ← downloadUser R message;
               match usr with
               | Some u => setUser ident u
               | None => mret tt
               end
          else mret tt
      | None => mret tt
      end;
  mret message.

Fixpoint downloadExtras (R : Remote) (channel : Channel)
    (messages : list ArchiveMessage) : M (list ArchiveMessage) :=
  match messages with
  | [] => mret []
  | message :: rest =>
      message' ← downloadExtrasStep R channel message;
      rest' ← downloadExtras R channel rest;
      mret (message' :: rest')
  end.

Definition initial (users : Users) : DlState :=
  {| st_users := users; st_calls := [] |}.


(** ** Pagination renderer (create-html.tsx) *)

Definition MESSAGE_CHUNK : nat := 1000.

(** lodash's [chunk(array, size)]: consecutive slices of [size] elements,
    the last one holding what remains; no slice at all for an empty array
    or a size below 1.  The fuel is the array's length, which the slices
    never exhaust (see [chunk_from_fuel]). *)
Fixpoint chunk_from {A} (fuel size : nat) (l : list A) : list (list A) :=
  match fuel with
  | O => []
  | S fuel' =>
      match l with
      | [] => []
      | _ :: _ => take size l :: chunk_from fuel' size (drop size l)
      end
  end.

Definition chunk {A} (l : list A) (size : nat) : list (list A) :=
  if (size <? 1)%nat then [] else chunk_from (length l) size l.

(** [array.entries()] *)
Fixpoint entries_from {A} (k : nat) (l : list A) : list (nat * A) :=
  match l with
  | [] => []
  | x :: rest => (k, x) :: entries_from (S k) rest
  end.

Definition entries {A} (l : list A) : list (nat * A) := entries_from 0 l.

(** [`${channelId}-${index}.html`], kept structured. *)
Record Href := {
  href_channel : option string;
  href_page : nat;
}.

(** One [<a className key href>{ji}</a>] of the jump bar. *)
Record JumpLink := {
  jump_className : string;
  jump_key : nat;
  jump_href : Href;
}.

Record PaginationView := {
  pg_newer : option Href;
  pg_sep : option string;
  pg_older : option Href;
  pg_jumper : list JumpLink;
}.

Definition Pagination (channelId : option string) (index total : nat)
  : option PaginationView :=
  if (total =? 1)%nat then None
  else
    let older :=
      if (index + 1 <? total)%nat
      then Some {| href_channel := channelId; href_page := index + 1 |}
      else None in
    let newer :=
      if (0 <? index)%nat
      then Some {| href_channel := channelId; href_page := index - 1 |}
      else None in
    let sep :=
      match older, newer with
      | Some _, Some _ => Some " | "
      | _, _ => None
      end in
    let jump :=
      (λ ji, {| jump_className := if (ji =? index)%nat then "current" else "";
                jump_key := ji;
                jump_href := {| href_channel := channelId; href_page := ji |} |})
        <$> seq 0 total in
    Some {| pg_newer := newer; pg_sep := sep; pg_older := older; pg_jumper := jump |}.

Record HeaderView := {
  hd_title : option string;
  hd_pagination : option PaginationView;
}.

Definition Header (channel : Channel) (index total : nat) : HeaderView :=
  {| hd_title := js_or (name channel) (id channel);
     hd_pagination := Pagination (id channel) index total |}.

(** The children of [<div className="messages-list">]. *)
Inductive Element :=
| ParentMessage (message : ArchiveMessage) (channelId : option string)
| EmptyNotice (text : string).

Record MessagesPageView := {
  mp_header : HeaderView;
  mp_messages_list : list Element;
}.

Definition MessagesPage (channel : Channel) (messages : list ArchiveMessage)
    (index total : nat) : MessagesPageView :=
  let rendered := reverse ((λ m, ParentMessage m (id channel)) <$> messages) in
  let rendered :=
    if (length rendered =? 0)%nat
    then rendered ++ [EmptyNotice "No messages were ever sent!"]
    else rendered in
  {| mp_header := Header channel index total;
     mp_messages_list := rendered |}.

(** What [renderMessagesPage] writes: the page of [getHTMLFilePath(id, index)],
    remembered with the slice it was rendered from. *)
Record WrittenPage := {
  wp_channel : option string;
  wp_index : nat;
  wp_total : nat;
  wp_messages : list ArchiveMessage;
  wp_view : MessagesPageView;
}.

Record RenderState := {
  (** the invocations [recordPage(channelId, ts)], oldest first *)
  rs_recorded : list (option string * option string);
  (** the pages written, oldest first *)
  rs_written : list WrittenPage;
}.

Abbreviation RM := (StateM RenderState).

Definition recordPage (channelId ts : option string) : RM unit :=
  λ s, (tt, {| rs_recorded := rs_recorded s ++ [(channelId, ts)];
               rs_written := rs_written s |}).

Definition renderAndWrite (page : WrittenPage) : RM unit :=
  λ s, (tt, {| rs_recorded := rs_recorded s;
               rs_written := rs_written s ++ [page] |}).

Definition renderMessagesPage (channel : Channel) (messages : list ArchiveMessage)
    (index total : nat) : RM unit :=
  let page := MessagesPage channel messages index total in
  _ ← (if (0 <? length messages)%nat
       then recordPage (id channel) (last messages ≫= λ m, ts (base m))
       else mret tt);
  renderAndWrite {| wp_channel := id channel; wp_index := index; wp_total := total;
                    wp_messages := messages; wp_view := page |}.

Definition createHtmlForChannel
    (getMessages : option string → list ArchiveMessage)
    (channel : Channel) (i total : nat) : RM unit :=
  let messages := getMessages (id channel) in
  let chunks := chunk messages MESSAGE_CHUNK in
  _ ← (if (length chunks =? 0)%nat
       then renderMessagesPage channel [] 0 (length chunks)
       else mret tt);
  for_each (entries chunks)
    (λ '(chunkI, chunk), renderMessagesPage channel chunk chunkI (length chunks)).

(** The page [renderMessagesPage] writes for one entry of the loop, and
    the boundary it records for a slice. *)
Definition pageOf (channel : Channel) (total : nat)
    (entry : nat * list ArchiveMessage) : WrittenPage :=
  {| wp_channel := id channel; wp_index := entry.1; wp_total := total;
     wp_messages := entry.2;
     wp_view := MessagesPage channel entry.2 entry.1 total |}.

Definition lastTs (slice : list ArchiveMessage) : option string :=
  last slice ≫= λ m, ts (base m).

Definition boundaryOf (channel : Channel) (slice : list ArchiveMessage)
  : option string * option string :=
  (id channel, lastTs slice).

Definition nothing_rendered : RenderState :=
  {| rs_recorded := []; rs_written := [] |}.

(** ** The collaborators the specification describes

    The transport layer and the caller that persists a run are not part of
    the sources; the definitions below follow the specification's words and
    serve to build concrete runs. *)

Fixpoint afterDot (s : string) : string :=
  match s with
  | String c r => if Ascii.eqb c "." then r else afterDot r
  | EmptyString => EmptyString
  end.

(** The first [n] fractional digits, a missing digit reading as 0. *)
Fixpoint fractionDigits (n : nat) (s : string) : Z :=
  match n with
  | O => 0
  | S n' =>
      match s with
      | String c r =>
          match digitValue c with
          | Some d => d * 10 ^ Z.of_nat n' + fractionDigits n' r
          | None => 0
          end
      | EmptyString => 0
      end
  end.

(** A Slack timestamp ["seconds.micros"] as a count of microseconds: the
    order in which messages were created. *)
Definition tsMicros (t : string) : Z :=
  default 0 (digitsPrefix t None) * 1000000 + fractionDigits 6 (afterDot t).

Definition microsOf (t : option string) : Z := tsMicros (default "" t).

(** [a] was created after [b]. *)
Definition newer (a b : option string) : Prop := microsOf b < microsOf a.

#[export] Instance newer_dec : RelDecision newer :=
  λ a b, decide (microsOf b < microsOf a).

(** "messages newer than the cursor" *)
Definition newerThanCursor (cursor : number) (m : Message) : bool :=
  match cursor with
  | Num c => c * 1000000 <? microsOf (ts m)
  | NaN => true
  | Infinity negative => negative
  end.

Definition newerThanTs (oldest : option string) (m : Message) : bool :=
  microsOf oldest <? microsOf (ts m).

(** Modelled from the spec: the transport collaborator of section 6, which
    is not part of the sources.  [fetchHistory(channelId, sinceTimestamp)]
    yields the channel's messages newer than the cursor, newest first (here
    in a single page); [fetchThreadReplies(channelId, anchorTimestamp,
    sinceTimestamp)] yields the anchor first, then the replies from the
    cursor forward; [lookupEntity] yields the record or nothing. *)
Definition slackRemote (history : list Message) (thread : list Message)
    (directory : gmap string User) : Remote :=
  {| conversations_history := λ _ cursor,
       [ {| page_messages := Some (List.filter (newerThanCursor cursor) history) |} ];
     conversations_replies := λ _ anchor oldest,
       Some (List.filter (λ m, bool_decide (ts m = Some anchor)) history
             ++ List.filter (newerThanTs oldest) thread);
     entity_info := λ _ identifier, directory !! identifier |}.

(** Modelled from the spec: the caller of cli.ts, which is not part of the
    sources, persists the merged collection of a run ("one JSON document per
    channel containing its full message collection"), so that the next run's
    [getMessages] reads it back. *)
Definition persist (getMessages : option string → list ArchiveMessage)
    (cid : string) (merged : list ArchiveMessage)
  : option string → list ArchiveMessage :=
  λ c, if decide (c = Some cid) then merged else getMessages c.

(** The stored message with the smallest timestamp. *)
Fixpoint oldestStored (stored : list ArchiveMessage) : option ArchiveMessage :=
  match stored with
  | [] => None
  | m :: rest =>
      match oldestStored rest with
      | Some o => if microsOf (ts (base m)) <? microsOf (ts (base o)) then Some m else Some o
      | None => Some m
      end
  end.

(** [n] successive resolutions of the author of one item. *)
Fixpoint resolveRepeatedly {A} `{HasAuthor A} (R : Remote) (item : A) (n : nat)
  : M (list (option User)) :=
  match n with
  | O => mret []
  | S n' =>
      u ← downloadUser R item;
      us ← resolveRepeatedly R item n';
      mret (u :: us)
  end.

(** How many of the logged calls look [identifier] up. *)
Definition lookupsOf (identifier : string) (calls : list ApiCall) : nat :=
  length (List.filter
            (λ c, match c with
                  | InfoLookup _ i => String.eqb i identifier
                  | _ => false
                  end) calls).

Definition tsOf (m : ArchiveMessage) : option string := ts (base m).

(** All the messages a sequence of pages delivers, in order. *)
Definition delivered (pages : list HistoryPage) : list Message :=
  mjoin ((λ p, default [] (page_messages p)) <$> pages).

(** A string of decimal digits and its value. *)
Fixpoint allDigits (s : string) : bool :=
  match s with
  | String c r =>
      match digitValue c with
      | Some _ => allDigits r
      | None => false
      end
  | EmptyString => true
  end.

Fixpoint decimalValue (s : string) : Z :=
  match s with
  | String c r => default 0 (digitValue c) * 10 ^ Z.of_nat (String.length r) + decimalValue r
  | EmptyString => 0
  end.

(** ** Sample data *)

Definition mkMessage (t : string) (author : string) : Message :=
  {| ts := Some t; user := Some author; bot_id := None;
     thread_ts := None; reply_count := None; text := Some "hello" |}.

Definition mkChannel (cid : option string) : Channel :=
  {| id := cid; name := Some "general"; channel_user := None;
     is_im := false; is_mpim := false |}.

Definition general : Channel := mkChannel (Some "C1").

Definition alice : User :=
  {| user_id := Some "U1"; user_name := Some "alice"; user_real_name := Some "Alice" |}.

(** A message without author fields (a channel event, say). *)
Definition anonymous : Message :=
  {| ts := Some "100.000200"; user := None; bot_id := None;
     thread_ts := None; reply_count := None; text := Some "joined" |}.

Definition directory : gmap string User := {[ "U1" := alice ]}.

(** A workspace whose one channel holds one message, synchronized twice
    from an empty archive. *)
Definition oneMessage : Message := mkMessage "100.000200" "U1".

Definition workspace : Remote := slackRemote [oneMessage] [] directory.

Definition emptyStore : option string → list ArchiveMessage := λ _, [].

Definition firstRun : DownloadMessagesResult :=
  (downloadMessages workspace emptyStore general 0 1 (initial ∅)).1.

Definition secondRun : DownloadMessagesResult :=
  (downloadMessages workspace (persist emptyStore "C1" (messages firstRun))
     general 0 1 (initial ∅)).1.

(** The same with a message created on a whole second. *)
Definition quietWorkspace : Remote :=
  slackRemote [mkMessage "100.000000" "U1"] [] directory.

(** A workspace with the two archived messages below and a newer one. *)
Definition busyWorkspace : Remote :=
  slackRemote [mkMessage "300.000500" "U1"; mkMessage "200.000000" "U1";
               mkMessage "100.000000" "U1"] [] directory.

(** An archive of two messages, newest first. *)
Definition twoStored : list ArchiveMessage :=
  [archive (mkMessage "200.000000" "U1"); archive (mkMessage "100.000000" "U1")].

(** A thread of three replies under one parent. *)
Definition parentMessage : Message :=
  {| ts := Some "100.000100"; user := Some "U1"; bot_id := None;
     thread_ts := Some "100.000100"; reply_count := Some 3; text := Some "question" |}.

Definition mkReply (t : string) : Message :=
  {| ts := Some t; user := Some "U1"; bot_id := None;
     thread_ts := Some "100.000100"; reply_count := None; text := Some "answer" |}.

Definition reply1 : Message := mkReply "101.000000".
Definition reply2 : Message := mkReply "102.000000".
Definition reply3 : Message := mkReply "103.000000".

Definition threadWorkspace : Remote :=
  slackRemote [parentMessage] [reply1; reply2; reply3] directory.

(** The parent as archived when only the first reply existed, and as
    archived with the whole thread. *)
Definition partialThread : ArchiveMessage :=
  {| base := parentMessage; replies := Some [reply1] |}.

Definition completeThread : ArchiveMessage :=
  {| base := parentMessage; replies := Some [reply1; reply2; reply3] |}.

(** A channel of [n] messages created one second apart, as archived:
    newest first. *)
Definition historyOf (n : nat) : list ArchiveMessage :=
  (λ k, archive (mkMessage (pretty (1700000000 + N.of_nat k)%N +:+ ".000000") "U1"))
    <$> reverse (seq 0 n).

(** ** The statements of the specification that the code does not meet,
    as predicates over the embedding *)

(** "Repeated resolution of the same identifier within one run issues
    exactly one remote lookup." *)
Definition one_lookup_per_identifier {A} `{HasAuthor A}
    (R : Remote) (item : A) (n : nat) (s : DlState) : Prop :=
  ∀ ident, identifierOf item = Some ident →
    lookupsOf ident (st_calls (resolveRepeatedly R item n s).2) = 1%nat.

(** "If non-empty, take the timestamp of the oldest stored message as the
    fetch cursor; otherwise fetch from the beginning of history."  The
    timestamp is read as the number the code would make of it. *)
Definition fetches_from_oldest_stored (R : Remote)
    (getMessages : option string → list ArchiveMessage) (channel : Channel) : Prop :=
  ∀ cid oldest, id channel = Some cid →
    HistoryFetch cid oldest ∈ st_calls (downloadMessages R getMessages channel 0 1 (initial ∅)).2 →
    match oldestStored (getMessages (Some cid)) with
    | Some m => oldest = parseInt (js_or_str (tsOf m) "0")
    | None => oldest = Num 0
    end.


(** "[recordPage] is invoked once per rendered page, in page-index order,
    with the timestamp of that page's oldest (last, pre-reversal) message." *)
Definition every_page_is_recorded
    (getMessages : option string → list ArchiveMessage) (channel : Channel) : Prop :=
  let s := (createHtmlForChannel getMessages channel 0 1 nothing_rendered).2 in
  rs_recorded s =
    (λ page, (wp_channel page, lastTs (wp_messages page))) <$> rs_written s.

(** ** downloadChannels *)

(** A channel as [conversations.list] delivers it: the fields of [Channel]
    and the text of its purpose, [channel.purpose?.value]. *)
Record ListedChannel := {
  listed : Channel;
  purpose_value : option string;
}.

(** [channel.name = n] *)
Definition set_name (channel : ListedChannel) (n : option string) : ListedChannel :=
  {| listed := {| id := id (listed channel);
                  name := n;
                  channel_user := channel_user (listed channel);
                  is_im := is_im (listed channel);
                  is_mpim := is_mpim (listed channel) |};
     purpose_value := purpose_value channel |}.

(** One page of [conversations.list]; [channels] may be absent. *)
Record ChannelsPage := { page_channels : option (list ListedChannel) }.

(** [!!input.channels] *)
Definition isChannels (page : ChannelsPage) : bool :=
  match page_channels page with
  | Some _ => true
  | None => false
  end.

(** [`${x}`] for an optional string. *)
Definition interpolate (x : option string) : string := default "undefined" x.

(** [`${user?.name}${realUserName}`] *)
Definition counterpartName (user : option User) : string :=
  let realUserName :=
    if truthy (user ≫= user_real_name)
    then " (" +:+ interpolate (user ≫= user_real_name) +:+ ")"
    else "" in
  interpolate (user ≫= user_name) +:+ realUserName.

(** The body of the loop over the channels of a page. *)
Definition nameChannel (R : Remote) (channel : ListedChannel) : M ListedChannel :=
  channel ← (if is_im (listed channel)
             then user ← downloadUser R (listed channel);
                  mret (set_name channel
                          (js_or (name (listed channel))
                                 (Some (counterpartName user))))
             else mret channel);
  if is_mpim (listed channel)
  then mret (set_name channel (purpose_value channel))
  else mret channel.

(** [for (const x of l) { await f(x) }] over objects updated in place. *)
Fixpoint map_each {S A B} (f : A → StateM S B) (l : list A) : StateM S (list B) :=
  match l with
  | [] => mret []
  | x :: rest => y ← f x; ys ← map_each f rest; mret (y :: ys)
  end.

(** [(c) => !!c.id] *)
Definition hasId (channel : ListedChannel) : bool := truthy (id (listed channel)).

(** The loop over the pages that [paginate("conversations.list", options)]
    yields, with the channels found so far. *)
Fixpoint downloadChannelsFrom (R : Remote) (pages : list ChannelsPage)
    (channels : list ListedChannel) : M (list ListedChannel) :=
  match pages with
  | [] => mret channels
  | page :: rest =>
      if isChannels page
      then let pageChannels := List.filter hasId (default [] (page_channels page)) in
           pageChannels ← map_each (nameChannel R) pageChannels;
           downloadChannelsFrom R rest (channels ++ pageChannels)
      else downloadChannelsFrom R rest channels
  end.

(** [downloadChannels(options, users)]; [listing] stands for the pages the
    remote yields for [options], and [users] is the cache of the state. *)
Definition downloadChannels (R : Remote) (listing : list ChannelsPage)
  : M (list ListedChannel) :=
  downloadChannelsFrom R listing [].

(** All the channels a listing delivers, in order. *)
Definition listedChannels (listing : list ChannelsPage) : list ListedChannel :=
  mjoin ((λ page, default [] (page_channels page)) <$> listing).

(** A direct conversation with U1 and one with an unknown counterpart, a
    group conversation, and a public channel. *)
Definition mkListed (cid : string) (n counterpart purpose : option string)
    (im mpim : bool) : ListedChannel :=
  {| listed := {| id := Some cid; name := n; channel_user := counterpart;
                  is_im := im; is_mpim := mpim |};
     purpose_value := purpose |}.

Definition dmAlice : ListedChannel := mkListed "D1" None (Some "U1") None true false.
Definition dmGhost : ListedChannel := mkListed "D2" None (Some "U404") None true false.
Definition groupChat : ListedChannel :=
  mkListed "G1" (Some "mpdm-a--b-1") None (Some "Group messaging with: @a @b") false true.
Definition listedGeneral : ListedChannel :=
  mkListed "C1" (Some "general") None (Some "Company-wide") false false.

(** ** ChannelLink (create-html.tsx) *)

(** [interface SlackArchiveChannelData], the count under the name
    [data_messages]. *)
Record SlackArchiveChannelData := {
  data_messages : Z;
  fullyDownloaded : bool;
}.

(** [s.replace(pattern, replacement)] for a string pattern and a
    replacement without [$]: the first occurrence is replaced. *)
Fixpoint replaceFirst (pattern replacement s : string) : string :=
  if String.prefix pattern s
  then replacement +:+ String.substring (String.length pattern) (String.length s) s
  else match s with
       | String c r => String c (replaceFirst pattern replacement r)
       | EmptyString => EmptyString
       end.

(** [name?.replace(pattern, replacement)] *)
Definition replaceIn (name : option string) (pattern replacement : string)
  : option string :=
  replaceFirst pattern replacement <$> name.

(** What stands in front of the name: [<span># </span>], the avatar of a
    user, or nothing. *)
Inductive LeadSymbol :=
| HashSymbol
| AvatarSymbol (userId : string)
| NoSymbol.

(** The [<li>] of a channel: [name] is its key, the title of its link and
    its text; the link goes to [`html/${channel.id}-0.html`]. *)
Record ChannelLinkView := {
  cl_name : option string;
  cl_href : Href;
  cl_lead : LeadSymbol;
}.

(** [ChannelLink], with the module variables [slackArchiveData.channels]
    and [me] as arguments.  A missing id reads the key ["undefined"]. *)
Definition ChannelLink (archiveChannels : gmap string SlackArchiveChannelData)
    (me : option User) (channel : Channel) : option ChannelLinkView :=
  let name := js_or (name channel) (id channel) in
  let leadSymbol := HashSymbol in
  let channelData := archiveChannels !! interpolate (id channel) in
  let suppressed :=
    match channelData with
    | Some d => data_messages d =? 0
    | None => false
    end in
  if suppressed then None
  else
    let name :=
      match me with
      | Some m =>
          if is_mpim channel
          then replaceIn (replaceIn name ("@" +:+ interpolate (user_name m)) "") "  " " "
          else name
      | None => name
      end in
    let leadSymbol :=
      match channel_user channel with
      | Some u => if is_im channel && truthy (channel_user channel)
                  then AvatarSymbol u else leadSymbol
      | None => leadSymbol
      end in
    let '(leadSymbol, name) :=
      if is_mpim channel
      then (NoSymbol, replaceIn name "Group messaging with: " "")
      else (leadSymbol, name) in
    Some {| cl_name := name;
            cl_href := {| href_channel := id channel; href_page := 0 |};
            cl_lead := leadSymbol |}.

(** ** Auxiliary notions for the further properties *)

(** The four ways [downloadUser] can end: result and final state. *)
Inductive UserOutcome {A} `{HasAuthor A} (R : Remote) (item : A) (s : DlState)
  : option User → DlState → Prop :=
| NoIdentifier :
    truthy (identifierOf item) = false →
    UserOutcome R item s None s
| CacheHit ident u :
    identifierOf item = Some ident → ident ≠ "" →
    st_users s !! ident = Some u →
    UserOutcome R item s (Some u) s
| Fetched ident u :
    identifierOf item = Some ident → ident ≠ "" →
    st_users s !! ident = None →
    entity_info R (identifierTypeOf item) ident = Some u →
    UserOutcome R item s (Some u)
      {| st_users := <[ident := u]> (st_users s);
         st_calls := st_calls s ++ [InfoLookup (identifierTypeOf item) ident] |}
| Unknown ident :
    identifierOf item = Some ident → ident ≠ "" →
    st_users s !! ident = None →
    entity_info R (identifierTypeOf item) ident = None →
    UserOutcome R item s None
      {| st_users := st_users s;
         st_calls := st_calls s ++ [InfoLookup (identifierTypeOf item) ident] |}.

(** The second half of an iteration of [downloadExtras]: the author of
    the message is resolved unless the cache has an entry for it. *)
Definition authorPhase (R : Remote) (m : ArchiveMessage) : M unit :=
  users ← getUsers;
  match identifierOf m with
  | Some ident =>
      if truthy (identifierOf m) && bool_decide (users !! ident = None)
      then usr ← downloadUser R m;
           match usr with
           | Some u => setUser ident u
           | None => mret tt
           end
      else mret tt
  | None => mret tt
  end.

(** A message [downloadExtras] has nothing left to do for: a thread parent
    holds all its replies, and the author, if any, is in the cache. *)
Definition upToDate (channel : Channel) (users : Users) (m : ArchiveMessage) : Prop :=
  (isThread m = true →
     truthy (id channel) = true ∧ truthy (tsOf m) = true
     ∧ haveAllReplies m (default 0 (reply_count (base m))) = true)
  ∧ (truthy (identifierOf m) = false
     ∨ ∃ ident, identifierOf m = Some ident ∧ is_Some (users !! ident)).

(** All the links of a pagination bar. *)
Definition linksOf (bar : PaginationView) : list Href :=
  option_list (pg_newer bar) ++ option_list (pg_older bar)
  ++ (jump_href <$> pg_jumper bar).

(** [createHtmlForChannels], as far as the pages of the channels go: the
    channels given, or all archived channels ([getChannels]) when none is
    given, are rendered in order, a channel without an id being skipped.
    The index page and the static assets, written afterwards, are not part
    of [RenderState]; the module variables set beforehand are read by
    [ChannelLink], which takes them as arguments. *)
Definition createHtmlForChannels
    (getChannels : list Channel)
    (getMessages : option string → list ArchiveMessage)
    (channels : list Channel) : RM unit :=
  let _channels := if (length channels =? 0)%nat then getChannels else channels in
  for_each (entries _channels)
    (λ '(i, channel),
       if negb (truthy (id channel)) then mret tt
       else createHtmlForChannel getMessages channel i (length _channels)).

Example parseInt_ts : parseInt "1355517523.000005" = Num 1355517523.
Proof. reflexivity. Qed.
Example parseInt_neg : parseInt "  -42abc" = Num (-42).
Proof. reflexivity. Qed.
Example parseInt_nan : parseInt "abc" = NaN.
Proof. reflexivity. Qed.
Example parseInt_rounds : parseInt "9007199254740993" = Num 9007199254740992.
Proof. reflexivity. Qed.
Example parseInt_rounds_up : parseInt "9007199254740995" = Num 9007199254740996.
Proof. reflexivity. Qed.
Example parseInt_no_break_space :
  parseInt (String (ascii_of_N 194) (String (ascii_of_N 160) "42")) = Num 42.
Proof. reflexivity. Qed.
Example parseInt_byte_order_mark :
  parseInt (String (ascii_of_N 239) (String (ascii_of_N 187)
             (String (ascii_of_N 191) " 7.5"))) = Num 7.
Proof. reflexivity. Qed.

(** * Properties *)

(** ** The state monad *)

Lemma bind_run {S A B} (m : StateM S A) (f : A → StateM S B) (s : S) :
  (m ≫= f) s = let '(a, s') := m s in f a s'.
Proof. reflexivity. Qed.

Lemma ret_run {S A} (a : A) (s : S) : (mret a : StateM S A) s = (a, s).
Proof. reflexivity. Qed.

Lemma truthy_Some (x : string) : truthy (Some x) = true ↔ x ≠ "".
Proof.
  unfold truthy. destruct (String.eqb_spec x ""); cbn; split; congruence.
Qed.

(** ** Entity cache *)

Section EntityCache.
Context {A : Type} `{HasAuthor A}.
Variable R : Remote.
Variable item : A.

Lemma downloadUser_cached ident u s :
  identifierOf item = Some ident → ident ≠ "" →
  st_users s !! ident = Some u →
  downloadUser R item s = (Some u, s).
Proof.
  intros Hid Hne Hu. unfold downloadUser. rewrite Hid.
  apply truthy_Some in Hne. rewrite Hne. cbn.
  unfold mbind, StateM_bind, getUsers. rewrite Hu. reflexivity.
Qed.

Lemma downloadUser_found ident u s :
  identifierOf item = Some ident → ident ≠ "" →
  st_users s !! ident = None →
  entity_info R (identifierTypeOf item) ident = Some u →
  downloadUser R item s =
    (Some u, {| st_users := <[ident := u]> (st_users s);
                st_calls := st_calls s ++ [InfoLookup (identifierTypeOf item) ident] |}).
Proof.
  intros Hid Hne Hu Hr. unfold downloadUser. rewrite Hid.
  apply truthy_Some in Hne. rewrite Hne. cbn.
  unfold mbind, StateM_bind, getUsers. rewrite Hu. cbn. rewrite Hr. reflexivity.
Qed.

Lemma downloadUser_missing ident s :
  identifierOf item = Some ident → ident ≠ "" →
  st_users s !! ident = None →
  entity_info R (identifierTypeOf item) ident = None →
  downloadUser R item s =
    (None, {| st_users := st_users s;
              st_calls := st_calls s ++ [InfoLookup (identifierTypeOf item) ident] |}).
Proof.
  intros Hid Hne Hu Hr. unfold downloadUser. rewrite Hid.
  apply truthy_Some in Hne. rewrite Hne. cbn.
  unfold mbind, StateM_bind, getUsers. rewrite Hu. cbn. rewrite Hr. reflexivity.
Qed.

Lemma resolveRepeatedly_cached ident u n s :
  identifierOf item = Some ident → ident ≠ "" →
  st_users s !! ident = Some u →
  resolveRepeatedly R item n s = (replicate n (Some u), s).
Proof.
  intros Hid Hne Hu. induction n as [|n IH]; [reflexivity|].
  cbn [resolveRepeatedly]. rewrite bind_run.
  rewrite (downloadUser_cached ident u) by assumption.
  rewrite bind_run, IH. reflexivity.
Qed.
End EntityCache.

(** C9 (as amended).  Resolving the author of an item any number of times:
    an identifier found in the cache is returned from it, with no remote
    call and no change of state; an identifier not yet cached that the
    remote knows costs exactly one lookup, the first one, which stores the
    record so that all further resolutions hit the cache; an identifier the
    remote does not know is not cached, and every resolution looks it up
    again. *)
Theorem downloadUser_resolves_once {A} `{HasAuthor A}
    (R : Remote) (item : A) (ident : string) (n : nat) (s : DlState) :
  identifierOf item = Some ident → ident ≠ "" →
  let lookup := InfoLookup (identifierTypeOf item) ident in
  match st_users s !! ident, entity_info R (identifierTypeOf item) ident with
  | Some u, _ =>
      resolveRepeatedly R item n s = (replicate n (Some u), s)
  | None, Some u =>
      resolveRepeatedly R item (S n) s =
        (replicate (S n) (Some u),
         {| st_users := <[ident := u]> (st_users s);
            st_calls := st_calls s ++ [lookup] |})
  | None, None =>
      resolveRepeatedly R item n s =
        (replicate n None,
         {| st_users := st_users s;
            st_calls := st_calls s ++ replicate n lookup |})
  end.
Proof.
  intros Hid Hne lookup.
  destruct (st_users s !! ident) as [u|] eqn:Hu.
  - by apply resolveRepeatedly_cached with ident.
  - destruct (entity_info R (identifierTypeOf item) ident) as [u|] eqn:Hr.
    + cbn [resolveRepeatedly]. rewrite bind_run.
      rewrite (downloadUser_found R item ident u) by assumption.
      rewrite bind_run.
      rewrite (resolveRepeatedly_cached R item ident u); try assumption.
      * reflexivity.
      * cbn. apply lookup_insert_eq.
    + revert s Hu. induction n as [|n IH]; intros s Hu.
      * cbn. rewrite app_nil_r. by destruct s.
      * cbn [resolveRepeatedly]. rewrite bind_run.
        rewrite (downloadUser_missing R item ident) by assumption.
        rewrite bind_run, IH by (cbn; assumption).
        cbn. rewrite <- app_assoc. reflexivity.
Qed.

Lemma downloadUser_resolves_once_witness :
  resolveRepeatedly (slackRemote [] [] directory) (mkMessage "100.000200" "U1") 3
    (initial ∅)
  = (replicate 3 (Some alice),
     {| st_users := <["U1" := alice]> ∅; st_calls := [InfoLookup KUser "U1"] |}).
Proof.
  exact (downloadUser_resolves_once (slackRemote [] [] directory)
           (mkMessage "100.000200" "U1") "U1" 2 (initial ∅)
           eq_refl ltac:(discriminate)).
Defined.

(** C9 (as stated) fails: an identifier the remote does not know is looked
    up at every resolution, twice for two resolutions. *)
Lemma unresolvable_identifier_is_looked_up_twice :
  ¬ one_lookup_per_identifier (slackRemote [] [] ∅) (mkMessage "100.000200" "U404") 2
      (initial ∅).
Proof.
  intros Hone. specialize (Hone "U404" eq_refl).
  vm_compute in Hone. discriminate.
Qed.

(** C10.  An item with neither a [user] nor a [bot_id] field: [downloadUser]
    returns null, issues no remote lookup and leaves the users cache as it
    was. *)
Theorem downloadUser_without_author {A} `{HasAuthor A}
    (R : Remote) (item : A) (s : DlState) :
  author_user item = None → author_bot_id item = None →
  downloadUser R item s = (None, s).
Proof.
  intros Hu Hb. unfold downloadUser, identifierOf, js_or.
  rewrite Hu, Hb. reflexivity.
Qed.

Lemma downloadUser_without_author_witness :
  downloadUser (slackRemote [] [] directory) anonymous (initial ∅) = (None, initial ∅).
Proof.
  exact (downloadUser_without_author (slackRemote [] [] directory) anonymous
           (initial ∅) eq_refl eq_refl).
Defined.

(** ** Message synchronizer *)

Lemma delivered_app (ps qs : list HistoryPage) :
  delivered (ps ++ qs) = delivered ps ++ delivered qs.
Proof.
  unfold delivered. rewrite fmap_app. induction ps as [|p ps IH]; cbn; [done|].
  rewrite <- app_assoc. f_equal. exact IH.
Qed.

Lemma delivered_reverse (ps : list HistoryPage) :
  delivered (reverse ps) ≡ₚ delivered ps.
Proof.
  induction ps as [|p ps IH]; [done|].
  rewrite reverse_cons, delivered_app, IH.
  change (p :: ps) with ([p] ++ ps). rewrite delivered_app.
  apply Permutation_app_comm.
Qed.

Lemma foldl_mergePage (pages : list HistoryPage) (r : DownloadMessagesResult) :
  messages (foldl mergePage r pages) = (archive <$> delivered (reverse pages)) ++ messages r
  ∧ new (foldl mergePage r pages) = (new r + length (delivered pages))%nat.
Proof.
  revert r. induction pages as [|p ps IH]; intros r.
  - cbn. split; [done | lia].
  - cbn [foldl]. destruct (IH (mergePage r p)) as [-> ->].
    rewrite reverse_cons, delivered_app, fmap_app.
    change (p :: ps) with ([p] ++ ps). rewrite (delivered_app [p]), length_app.
    unfold mergePage, isConversation, delivered. cbn. rewrite !app_nil_r.
    destruct (page_messages p) as [pm|]; cbn; rewrite ?app_nil_r.
    + split; [by rewrite <- app_assoc | lia].
    + split; [done | lia].
Qed.

Lemma downloadMessages_run (R : Remote) (getMessages : option string → list ArchiveMessage)
    (channel : Channel) (i n : nat) (s : DlState) (cid : string) :
  id channel = Some cid → cid ≠ "" →
  let stored := getMessages (Some cid) in
  let oldest := historyCursor stored in
  downloadMessages R getMessages channel i n s =
    (foldl mergePage {| messages := stored; new := 0 |} (conversations_history R cid oldest),
     {| st_users := st_users s; st_calls := st_calls s ++ [HistoryFetch cid oldest] |}).
Proof.
  intros Hid Hne. unfold downloadMessages. rewrite Hid.
  apply truthy_Some in Hne. rewrite Hne. reflexivity.
Qed.

(** C1 (as amended).  [downloadMessages] does not de-duplicate: the merged
    collection is the messages of the fetched pages, later pages in front,
    followed by the persisted collection as it was.  It holds no two
    messages with the same timestamp provided that the persisted messages
    and the fetched ones, taken together, do not. *)
Theorem downloadMessages_merge (R : Remote)
    (getMessages : option string → list ArchiveMessage)
    (channel : Channel) (i n : nat) (s : DlState) (cid : string) :
  id channel = Some cid → cid ≠ "" →
  let stored := getMessages (Some cid) in
  let pages := conversations_history R cid (historyCursor stored) in
  let result := (downloadMessages R getMessages channel i n s).1 in
  messages result = (archive <$> delivered (reverse pages)) ++ stored
  ∧ (NoDup (tsOf <$> (archive <$> delivered pages) ++ stored) →
     NoDup (tsOf <$> messages result)).
Proof.
  intros Hid Hne stored pages result.
  assert (Hm : messages result = (archive <$> delivered (reverse pages)) ++ stored).
  { subst result. rewrite (downloadMessages_run R getMessages channel i n s cid Hid Hne).
    cbn [fst]. apply foldl_mergePage. }
  split; [exact Hm|].
  rewrite Hm. intros Hnd. by rewrite delivered_reverse.
Qed.

Lemma downloadMessages_merge_witness :
  let result :=
    (downloadMessages busyWorkspace (λ _, twoStored) general 0 1 (initial ∅)).1 in
  messages result = archive (mkMessage "300.000500" "U1") :: twoStored
  ∧ NoDup (tsOf <$> messages result).
Proof.
  destruct (downloadMessages_merge busyWorkspace (λ _, twoStored) general 0 1
              (initial ∅) "C1" eq_refl ltac:(discriminate)) as [Hm Hnd].
  split; [exact Hm|].
  apply Hnd. vm_compute.
  repeat (constructor; [intros Hin; repeat (inversion Hin as [|? ? ? Hin']; subst;
                                           clear Hin; rename Hin' into Hin);
                        inversion Hin|]).
  constructor.
Defined.

(** C1 (as stated) fails: the second of two successive runs is delivered
    the newest stored message again and keeps both copies. *)
Lemma redelivered_message_is_stored_twice :
  ¬ NoDup (tsOf <$> messages secondRun).
Proof.
  assert (Hrun : tsOf <$> messages secondRun = [Some "100.000200"; Some "100.000200"])
    by reflexivity.
  rewrite Hrun. intros Hnd. inversion Hnd as [|? ? Hnotin _]; subst.
  apply Hnotin. left.
Qed.

(** C3 (as amended).  The second of two successive runs counts as new
    every message the remote delivers for its cursor, and puts them in
    front of what the first run produced; when the remote delivers no
    message for that cursor, the new-message count is 0 and the merged
    collection is the one of the first run. *)
Theorem downloadMessages_second_run (R : Remote)
    (getMessages : option string → list ArchiveMessage)
    (channel : Channel) (i n : nat) (s s' : DlState) (cid : string) :
  id channel = Some cid → cid ≠ "" →
  let first := (downloadMessages R getMessages channel i n s).1 in
  let second :=
    (downloadMessages R (persist getMessages cid (messages first)) channel i n s').1 in
  let pages := conversations_history R cid (historyCursor (messages first)) in
  new second = length (delivered pages)
  ∧ messages second = (archive <$> delivered (reverse pages)) ++ messages first
  ∧ (delivered pages = [] → new second = 0%nat ∧ messages second = messages first).
Proof.
  intros Hid Hne first second pages.
  assert (Hstored : persist getMessages cid (messages first) (Some cid) = messages first).
  { unfold persist. by rewrite decide_True. }
  assert (Hrun : second =
            foldl mergePage {| messages := messages first; new := 0 |} pages).
  { subst second pages.
    rewrite (downloadMessages_run R _ channel i n s' cid Hid Hne).
    cbn [fst]. by rewrite Hstored. }
  destruct (foldl_mergePage pages {| messages := messages first; new := 0 |})
    as [Hm Hn].
  rewrite <- Hrun in Hm, Hn. cbn in Hm, Hn.
  split; [exact Hn|]. split; [exact Hm|].
  intros Hnone. rewrite Hn, Hm, Hnone. split; [done|].
  pose proof (delivered_reverse pages) as Hperm. rewrite Hnone in Hperm.
  symmetry in Hperm. apply Permutation_nil in Hperm. by rewrite Hperm.
Qed.

(** C3 (as stated) fails: against the unchanged one-message workspace the
    second run counts one new message and stores it a second time. *)
Lemma second_run_is_not_idempotent :
  ¬ (new secondRun = 0%nat ∧ messages secondRun = messages firstRun).
Proof.
  assert (Hnew : new secondRun = 1%nat) by reflexivity.
  rewrite Hnew. intros [Hzero _]. discriminate.
Qed.

Lemma downloadMessages_second_run_witness :
  let first := (downloadMessages quietWorkspace emptyStore general 0 1 (initial ∅)).1 in
  let second :=
    (downloadMessages quietWorkspace (persist emptyStore "C1" (messages first))
       general 0 1 (initial ∅)).1 in
  new second = 0%nat ∧ messages second = messages first.
Proof.
  destruct (downloadMessages_second_run quietWorkspace emptyStore general 0 1
              (initial ∅) (initial ∅) "C1" eq_refl ltac:(discriminate))
    as (_ & _ & Hquiet).
  apply Hquiet. reflexivity.
Defined.

(** ** The history cursor *)

Lemma digit_is_no_prefix (c : ascii) (d : Z) :
  digitValue c = Some d →
  isWhiteSpace c = false ∧ c ≠ "-"%char ∧ c ≠ "+"%char.
Proof.
  destruct c as [[] [] [] [] [] [] [] []]; vm_compute; intros Hd;
    try discriminate; repeat split; discriminate.
Qed.

Lemma digitsPrefix_digits (s rest : string) (a : Z) :
  allDigits s = true →
  digitsPrefix (s +:+ rest) (Some a) =
    digitsPrefix rest (Some (a * 10 ^ Z.of_nat (String.length s) + decimalValue s)).
Proof.
  revert a. induction s as [|c r IH]; intros a Hall.
  - cbn. do 2 f_equal. lia.
  - cbn [allDigits] in Hall.
    change (String c r +:+ rest) with (String c (r +:+ rest)).
    cbn [digitsPrefix decimalValue String.length].
    destruct (digitValue c) as [d|]; [|discriminate].
    rewrite IH by assumption. do 2 f_equal. cbn [default].
    rewrite Nat2Z.inj_succ, Z.pow_succ_r by lia. unfold Datatypes.id. ring.
Qed.

Lemma trimStart_digit (c : ascii) (d : Z) (r : string) :
  digitValue c = Some d → trimStart (String c r) = String c r.
Proof.
  intros Hd.
  assert (Hc : isWhiteSpace c = false
               ∧ (∀ c2, isWhiteSpace2 c c2 = false)
               ∧ (∀ c2 c3, isWhiteSpace3 c c2 c3 = false)).
  { destruct c as [[] [] [] [] [] [] [] []]; vm_compute in Hd; try discriminate;
      repeat split; reflexivity. }
  destruct Hc as (H1 & H2 & H3). cbn [trimStart]. rewrite H1.
  destruct r as [|c2 [|c3 r3]]; [reflexivity | by rewrite H2 | by rewrite H2, H3].
Qed.

Lemma decimalValue_nonneg (s : string) : 0 ≤ decimalValue s.
Proof.
  induction s as [|c r IH]; [done|]. cbn [decimalValue].
  assert (0 ≤ default 0 (digitValue c)).
  { unfold digitValue. destruct (_ && _) eqn:Hrange; cbn; lia. }
  assert (0 ≤ 10 ^ Z.of_nat (String.length r)) by (apply Z.pow_nonneg; lia).
  nia.
Qed.

Lemma toDouble_exact (n : Z) : Z.abs n < 2 ^ 53 → toDouble n = Num n.
Proof.
  intros Hn. unfold toDouble.
  destruct (Z.ltb_spec (Z.abs n) (2 ^ 53)); [reflexivity | lia].
Qed.

Lemma parseInt_seconds (secs frac : string) :
  secs ≠ "" → allDigits secs = true → decimalValue secs < 2 ^ 53 →
  parseInt (secs +:+ "." +:+ frac) = Num (decimalValue secs).
Proof.
  intros Hne Hall Hbound. pose proof (decimalValue_nonneg secs) as Hpos.
  destruct secs as [|c r]; [done|].
  cbn [allDigits] in Hall. destruct (digitValue c) as [d|] eqn:Hd; [|discriminate].
  destruct (digit_is_no_prefix c d Hd) as (Hws & Hminus & Hplus).
  change (String c r +:+ "." +:+ frac) with (String c (r +:+ "." +:+ frac)).
  unfold parseInt. rewrite (trimStart_digit c d) by assumption.
  assert (Hbody :
    match String c (r +:+ "." +:+ frac) with
    | String "-" r' => (-1, r')
    | String "+" r' => (1, r')
    | _ => (1, String c (r +:+ "." +:+ frac))
    end = (1, String c (r +:+ "." +:+ frac))).
  { destruct c as [[] [] [] [] [] [] [] []]; try reflexivity; congruence. }
  rewrite Hbody. cbn [digitsPrefix]. rewrite Hd.
  rewrite digitsPrefix_digits by assumption.
  change ("." +:+ frac) with (String "." frac).
  cbn [digitsPrefix default].
  change (digitValue ".") with (@None Z). cbv iota.
  match goal with
  | |- toDouble ?v = _ =>
      replace v with (decimalValue (String c r));
      [apply toDouble_exact; lia|]
  end.
  cbn [decimalValue]. rewrite Hd. cbn [default from_option].
  unfold Datatypes.id. ring.
Qed.

(** C2 (as amended).  [downloadMessages] issues one history request.  Its
    cursor is 0 when the persisted collection is empty; otherwise it is
    computed from the timestamp of the first stored message alone, which is
    the newest message of a collection stored newest first, and not from
    the oldest one.  (The computation is [parseInt]: 0 when that message
    has no timestamp, the whole seconds of a timestamp "seconds.micros" as
    long as a double holds them exactly.) *)
Theorem downloadMessages_cursor (R : Remote)
    (getMessages : option string → list ArchiveMessage)
    (channel : Channel) (i n : nat) (s : DlState) (cid : string) :
  id channel = Some cid → cid ≠ "" →
  let stored := getMessages (Some cid) in
  st_calls (downloadMessages R getMessages channel i n s).2
    = st_calls s ++ [HistoryFetch cid (historyCursor stored)]
  ∧ (stored = [] → historyCursor stored = Num 0)
  ∧ (∀ m rest, stored = m :: rest →
       historyCursor stored = parseInt (js_or_str (tsOf m) "0")
       ∧ (StronglySorted newer (tsOf <$> stored) →
          Forall (λ m', newer (tsOf m) (tsOf m')) rest)
       ∧ (truthy (tsOf m) = false → historyCursor stored = Num 0)
       ∧ (∀ secs frac, tsOf m = Some (secs +:+ "." +:+ frac) →
            secs ≠ "" → allDigits secs = true → decimalValue secs < 2 ^ 53 →
            historyCursor stored = Num (decimalValue secs))).
Proof.
  intros Hid Hne stored.
  rewrite (downloadMessages_run R getMessages channel i n s cid Hid Hne).
  split; [reflexivity|]. split.
  - intros ->. reflexivity.
  - intros m rest ->. split; [reflexivity|]. split.
    { cbn [fmap list_fmap]. intros Hsorted.
      apply StronglySorted_cons in Hsorted as [Hhead _].
      apply (proj1 (Forall_fmap _ _ _)) in Hhead. exact Hhead. }
    unfold historyCursor, tsOf, js_or_str. split.
    + intros Hfalsy. destruct (ts (base m)); [rewrite Hfalsy|]; reflexivity.
    + intros secs frac -> Hsecs Hall Hbound.
      assert (Htruthy : truthy (Some (secs +:+ "." +:+ frac)) = true).
      { apply truthy_Some. destruct secs; [done | discriminate]. }
      rewrite Htruthy. by apply parseInt_seconds.
Qed.

Lemma downloadMessages_cursor_witness :
  st_calls (downloadMessages workspace (λ _, twoStored) general 0 1 (initial ∅)).2
    = [HistoryFetch "C1" (Num 200)]
  ∧ Forall (λ m', newer (Some "200.000000") (tsOf m'))
      [archive (mkMessage "100.000000" "U1")].
Proof.
  destruct (downloadMessages_cursor workspace (λ _, twoStored) general 0 1 (initial ∅)
              "C1" eq_refl ltac:(discriminate)) as (Hcalls & _ & Hfirst).
  destruct (Hfirst _ _ eq_refl) as (_ & Hnewest & _ & Hseconds).
  split.
  - rewrite Hcalls,
      (Hseconds "200" "000000" eq_refl ltac:(discriminate) eq_refl ltac:(reflexivity)).
    reflexivity.
  - apply Hnewest. repeat constructor.
Defined.

(** C2 (as stated) fails: with two stored messages the cursor is taken from
    the first, newest one (200) and not from the oldest one (100). *)
Lemma cursor_is_not_the_oldest_stored :
  ¬ fetches_from_oldest_stored workspace (λ _, twoStored) general.
Proof.
  intros Hclaim. specialize (Hclaim "C1" (Num 200) eq_refl).
  assert (Hcalls :
    st_calls (downloadMessages workspace (λ _, twoStored) general 0 1 (initial ∅)).2
      = [HistoryFetch "C1" (Num 200)]) by reflexivity.
  rewrite Hcalls in Hclaim. specialize (Hclaim ltac:(left)).
  vm_compute in Hclaim. discriminate.
Qed.

(** ** Thread synchronizer *)

(** X7.  When fewer replies are stored than the reply count says,
    [downloadReplies] issues exactly one replies request, whose cursor is
    the timestamp of the last stored reply, or "0" when none is stored, and
    returns the answer without its first entry (nothing when the answer has
    no messages). *)
Lemma downloadReplies_fetch (R : Remote) (channel : Channel) (message : ArchiveMessage)
    (cid mts : string) (count : Z) (s : DlState) :
  id channel = Some cid → cid ≠ "" →
  tsOf message = Some mts → mts ≠ "" →
  reply_count (base message) = Some count → count ≠ 0 →
  haveAllReplies message count = false →
  let oldest :=
    match last (default [] (replies message)) with
    | Some r => ts r
    | None => Some "0"
    end in
  downloadReplies R channel message s =
    (drop 1 (default [] (conversations_replies R cid mts oldest)),
     {| st_users := st_users s;
        st_calls := st_calls s ++ [RepliesFetch cid mts oldest] |}).
Proof.
  intros Hid Hcid Hts Hmts Hcount Hnz Hmore. unfold tsOf in Hts.
  unfold downloadReplies. rewrite Hid, Hts, Hcount.
  apply truthy_Some in Hcid, Hmts. rewrite Hcid, Hmts.
  cbn [negb orb truthyNum default from_option Datatypes.id].
  apply Z.eqb_neq in Hnz. rewrite Hnz. cbn [negb].
  unfold Datatypes.id. rewrite Hmore. reflexivity.
Qed.




(** C5 (the code at the failing input).  A parent archived with its first
    reply and a reply count of 3: [downloadReplies] asks for the replies
    after the stored one, drops the parent from the answer and returns the
    two new replies alone; [downloadExtras] makes them the reply sequence of
    the message, from which the stored reply is gone. *)
Theorem downloadReplies_drops_stored_replies :
  conversations_replies threadWorkspace "C1" "100.000100" (Some "101.000000")
    = Some [parentMessage; reply2; reply3]
  ∧ downloadReplies threadWorkspace general partialThread (initial directory)
    = ([reply2; reply3],
       {| st_users := directory;
          st_calls := [RepliesFetch "C1" "100.000100" (Some "101.000000")] |})
  ∧ (downloadExtras threadWorkspace general [partialThread] (initial directory)).1
    = [with_replies partialThread [reply2; reply3]]
  ∧ reply1 ∉ [reply2; reply3].
Proof.
  split; [reflexivity|]. split; [reflexivity|]. split; [reflexivity|].
  intros Hin. repeat (apply elem_of_cons in Hin as [Hin|Hin]; [discriminate|]).
  by apply elem_of_nil in Hin.
Qed.

(** ** Pagination renderer *)

Section Chunk.
Context {A : Type}.
Implicit Types (l : list A) (size fuel : nat).
Local Open Scope nat_scope.

Lemma chunk_from_fuel fuel fuel' size l :
  0 < size → length l ≤ fuel → length l ≤ fuel' →
  chunk_from fuel size l = chunk_from fuel' size l.
Proof.
  intros Hsize. revert fuel' l.
  induction fuel as [|fuel IH]; intros fuel' l Hf Hf'.
  - destruct l; [|cbn in Hf; lia]. by destruct fuel'.
  - destruct l as [|x l]; [by destruct fuel'|].
    destruct fuel' as [|fuel']; [cbn in Hf'; lia|].
    cbn [chunk_from]. f_equal. cbn [length] in Hf, Hf'.
    apply IH; rewrite length_drop; cbn [length]; lia.
Qed.

Lemma chunk_nil size : chunk (@nil A) size = [].
Proof. unfold chunk. by destruct (size <? 1). Qed.

Lemma chunk_cons size l :
  0 < size → l ≠ [] →
  chunk l size = take size l :: chunk (drop size l) size.
Proof.
  intros Hsize Hl. unfold chunk.
  destruct (Nat.ltb_spec size 1) as [|_]; [lia|].
  destruct l as [|x l]; [done|].
  cbn [length chunk_from]. f_equal.
  apply chunk_from_fuel; [done| |done].
  rewrite length_drop. cbn [length]. lia.
Qed.

(** Induction along the slices [chunk] cuts. *)
Lemma chunk_induction size (P : list A → list (list A) → Prop) :
  0 < size →
  P [] [] →
  (∀ l, l ≠ [] →
     P (drop size l) (chunk (drop size l) size) →
     P l (take size l :: chunk (drop size l) size)) →
  ∀ l, P l (chunk l size).
Proof.
  intros Hsize Hnil Hcons l.
  remember (length l) as k eqn:Hk. revert l Hk.
  induction k as [k IH] using lt_wf_ind. intros l Hk.
  destruct l as [|x l].
  - by rewrite chunk_nil.
  - rewrite chunk_cons by done. apply Hcons; [done|].
    apply (IH (length (drop size (x :: l)))); [|done].
    rewrite length_drop. subst k. cbn [length]. lia.
Qed.

Lemma chunk_concat size l : 0 < size → concat (chunk l size) = l.
Proof.
  intros Hsize. apply (chunk_induction size (λ l cs, concat cs = l)); [done..|].
  intros l' _ IH. cbn [concat]. rewrite IH. apply take_drop.
Qed.

Lemma chunk_nonempty size l :
  0 < size → Forall (λ c, c ≠ []) (chunk l size).
Proof.
  intros Hsize.
  apply (chunk_induction size (λ _ cs, Forall (λ c, c ≠ []) cs)); [done..|].
  intros l' Hl' IH. constructor; [|done].
  destruct l' as [|x l']; [done|]. destruct size; [lia|]. done.
Qed.

Lemma chunk_bounded size l :
  0 < size → Forall (λ c, length c ≤ size) (chunk l size).
Proof.
  intros Hsize.
  apply (chunk_induction size (λ _ cs, Forall (λ c, length c ≤ size) cs)); [done..|].
  intros l' _ IH. constructor; [|done]. rewrite length_take. apply Nat.le_min_l.
Qed.

Lemma entries_from_fst k (cs : list A) :
  (entries_from k cs).*1 = seq k (length cs).
Proof.
  revert k. induction cs as [|c cs IH]; intros k; [done|].
  cbn. f_equal. apply IH.
Qed.

Lemma entries_from_snd k (cs : list A) : (entries_from k cs).*2 = cs.
Proof.
  revert k. induction cs as [|c cs IH]; intros k; [done|].
  cbn. f_equal. apply IH.
Qed.
End Chunk.

(** The slices of 2500 elements. *)
Lemma chunk_2500 {A} (l : list A) :
  length l = 2500%nat →
  chunk l 1000 = [take 1000 l; take 1000 (drop 1000 l); drop 2000 l].
Proof.
  intros Hlen.
  assert (Hne : ∀ k : list A, (0 < length k)%nat → k ≠ []).
  { intros [|] ?; [cbn in *; lia | done]. }
  rewrite chunk_cons by (try apply Hne; lia).
  rewrite (chunk_cons _ (drop 1000 l))
    by (try apply Hne; rewrite ?length_drop; lia).
  rewrite drop_drop.
  rewrite (chunk_cons _ (drop (1000 + 1000) l))
    by (try apply Hne; rewrite ?length_drop; lia).
  rewrite drop_drop.
  assert (Hend : drop (1000 + 1000 + 1000) l = []).
  { apply drop_ge. lia. }
  rewrite Hend, chunk_nil.
  rewrite (take_ge (drop (1000 + 1000) l)) by (rewrite length_drop; lia).
  reflexivity.
Qed.

Lemma render_entries (channel : Channel) (total : nat)
    (chunks : list (list ArchiveMessage)) (k : nat) (s : RenderState) :
  Forall (λ c, c ≠ []) chunks →
  (for_each (entries_from k chunks)
     (λ '(chunkI, chunk), renderMessagesPage channel chunk chunkI total) s).2 =
  {| rs_recorded := rs_recorded s ++ (boundaryOf channel <$> chunks);
     rs_written := rs_written s ++ (pageOf channel total <$> entries_from k chunks) |}.
Proof.
  revert k s. induction chunks as [|c cs IH]; intros k s Hne.
  - cbn. rewrite !app_nil_r. by destruct s.
  - apply Forall_cons in Hne as [Hc Hcs].
    cbn [entries_from for_each]. rewrite bind_run.
    destruct c as [|m c]; [done|].
    unfold renderMessagesPage at 1. rewrite bind_run. cbn [length Nat.ltb Nat.leb].
    unfold recordPage at 1, renderAndWrite at 1.
    rewrite IH by done. cbn [rs_recorded rs_written fmap list_fmap].
    rewrite <- !app_assoc. reflexivity.
Qed.

Lemma createHtmlForChannel_run
    (getMessages : option string → list ArchiveMessage)
    (channel : Channel) (i total : nat) (s : RenderState) :
  let chunks := chunk (getMessages (id channel)) MESSAGE_CHUNK in
  (createHtmlForChannel getMessages channel i total s).2 =
    match chunks with
    | [] =>
        {| rs_recorded := rs_recorded s;
           rs_written := rs_written s ++ [pageOf channel 0 (0%nat, [])] |}
    | _ :: _ =>
        {| rs_recorded := rs_recorded s ++ (boundaryOf channel <$> chunks);
           rs_written := rs_written s
                         ++ (pageOf channel (length chunks) <$> entries chunks) |}
    end.
Proof.
  intros chunks. unfold createHtmlForChannel. fold chunks.
  pose proof (chunk_nonempty MESSAGE_CHUNK (getMessages (id channel))
                ltac:(unfold MESSAGE_CHUNK; lia)) as Hne.
  fold chunks in Hne. rewrite bind_run.
  destruct chunks as [|c cs] eqn:Hchunks.
  - reflexivity.
  - cbn [length Nat.eqb]. rewrite ret_run. unfold entries.
    by rewrite render_entries.
Qed.

(** C7.  A channel whose message collection is empty: rendering writes
    exactly one page, and the message list of that page is the notice
    "No messages were ever sent!". *)
Theorem createHtmlForChannel_empty
    (getMessages : option string → list ArchiveMessage)
    (channel : Channel) (i total : nat) (s : RenderState) :
  getMessages (id channel) = [] →
  ∃ page,
    rs_written (createHtmlForChannel getMessages channel i total s).2
      = rs_written s ++ [page]
    ∧ wp_messages page = []
    ∧ mp_messages_list (wp_view page) = [EmptyNotice "No messages were ever sent!"].
Proof.
  intros Hempty. rewrite createHtmlForChannel_run, Hempty, chunk_nil.
  eexists. split; [reflexivity|]. split; reflexivity.
Qed.

Lemma createHtmlForChannel_empty_witness :
  ∃ page,
    rs_written (createHtmlForChannel emptyStore general 0 1 nothing_rendered).2 = [page]
    ∧ wp_messages page = []
    ∧ mp_messages_list (wp_view page) = [EmptyNotice "No messages were ever sent!"].
Proof.
  exact (createHtmlForChannel_empty emptyStore general 0 1 nothing_rendered eq_refl).
Defined.

Lemma pages_messages (channel : Channel) (total k : nat)
    (chunks : list (list ArchiveMessage)) :
  wp_messages <$> (pageOf channel total <$> entries_from k chunks) = chunks.
Proof.
  rewrite <- (entries_from_snd k chunks) at 2.
  rewrite <- list_fmap_compose. reflexivity.
Qed.

Lemma pages_indices (channel : Channel) (total k : nat)
    (chunks : list (list ArchiveMessage)) :
  wp_index <$> (pageOf channel total <$> entries_from k chunks)
    = seq k (length chunks).
Proof.
  rewrite <- (entries_from_fst k chunks), <- list_fmap_compose. reflexivity.
Qed.

(** The pages written for a channel are consecutive slices of its
    collection, each of at most [MESSAGE_CHUNK] messages, numbered from 0. *)
Lemma createHtmlForChannel_slices
    (getMessages : option string → list ArchiveMessage)
    (channel : Channel) (i total : nat) :
  let stored := getMessages (id channel) in
  let pages :=
    rs_written (createHtmlForChannel getMessages channel i total nothing_rendered).2 in
  concat (wp_messages <$> pages) = stored
  ∧ Forall (λ page, (length (wp_messages page) ≤ MESSAGE_CHUNK)%nat) pages
  ∧ wp_index <$> pages = seq 0 (length pages).
Proof.
  intros stored pages. subst pages. rewrite createHtmlForChannel_run. fold stored.
  assert (Hsize : (0 < MESSAGE_CHUNK)%nat) by (unfold MESSAGE_CHUNK; lia).
  pose proof (chunk_bounded MESSAGE_CHUNK stored Hsize) as Hle.
  pose proof (chunk_concat MESSAGE_CHUNK stored Hsize) as Hconcat.
  destruct (chunk stored MESSAGE_CHUNK) as [|c cs] eqn:Hchunks.
  - cbn in Hconcat. rewrite <- Hconcat. split; [reflexivity|].
    split; [|reflexivity]. repeat constructor.
  - cbn [rs_written nothing_rendered app]. unfold entries.
    set (chunks := c :: cs) in *.
    rewrite pages_messages, pages_indices, !length_fmap.
    rewrite <- (length_fmap snd), entries_from_snd.
    split; [done|]. split; [|done].
    rewrite <- (pages_messages channel (length chunks) 0 chunks) in Hle.
    apply (proj1 (Forall_fmap _ _ _)) in Hle. exact Hle.
Qed.

(** C6.  Rendering a channel cuts its collection, stored newest first, into
    consecutive slices of at most 1000 messages, the first slice on page 0.
    With 2500 messages it writes exactly 3 pages, of 1000, 1000 and 500
    messages, page 0 holding the first (newest) 1000 and page 2 the last
    (oldest) 500; and the jump bar of page 1 lists the indices 0, 1 and 2
    and marks 1, and only 1, as current. *)
Theorem createHtmlForChannel_2500
    (getMessages : option string → list ArchiveMessage)
    (channel : Channel) (i total : nat) :
  let stored := getMessages (id channel) in
  let pages :=
    rs_written (createHtmlForChannel getMessages channel i total nothing_rendered).2 in
  (concat (wp_messages <$> pages) = stored
   ∧ Forall (λ page, (length (wp_messages page) ≤ 1000)%nat) pages
   ∧ wp_index <$> pages = seq 0 (length pages))
  ∧ (length stored = 2500%nat →
     wp_messages <$> pages
       = [take 1000 stored; take 1000 (drop 1000 stored); drop 2000 stored]
     ∧ length <$> (wp_messages <$> pages) = [1000; 1000; 500]%nat
     ∧ wp_index <$> pages = [0; 1; 2]%nat
     ∧ wp_total <$> pages = [3; 3; 3]%nat
     ∧ ∃ page1 bar,
         pages !! 1%nat = Some page1
         ∧ hd_pagination (mp_header (wp_view page1)) = Some bar
         ∧ jump_key <$> pg_jumper bar = [0; 1; 2]%nat
         ∧ jump_className <$> pg_jumper bar = [""; "current"; ""]).
Proof.
  intros stored pages.
  split; [apply createHtmlForChannel_slices|].
  intros Hlen. subst pages.
  rewrite createHtmlForChannel_run. fold stored.
  unfold MESSAGE_CHUNK. rewrite (chunk_2500 stored Hlen).
  cbn [rs_written nothing_rendered app entries entries_from fmap list_fmap
       pageOf wp_messages wp_index wp_total fst snd length].
  split; [reflexivity|]. split.
  { rewrite length_take_le by lia.
    rewrite length_take_le by (rewrite length_drop; lia).
    rewrite length_drop, Hlen. reflexivity. }
  split; [reflexivity|]. split; [reflexivity|].
  eexists _, _. split; [reflexivity|]. split; [reflexivity|].
  split; reflexivity.
Qed.

Lemma createHtmlForChannel_2500_witness :
  length <$> (wp_messages <$>
    rs_written (createHtmlForChannel (λ _, historyOf 2500) general 0 1 nothing_rendered).2)
  = [1000; 1000; 500]%nat.
Proof.
  destruct (createHtmlForChannel_2500 (λ _, historyOf 2500) general 0 1)
    as [_ Hpages].
  destruct (Hpages ltac:(vm_compute; reflexivity)) as (_ & Hsizes & _).
  exact Hsizes.
Defined.

(** ** Search index boundaries *)

Lemma lastTs_elem (c : list ArchiveMessage) : c ≠ [] → lastTs c ∈ tsOf <$> c.
Proof.
  intros Hc. apply last_is_Some in Hc as [m Hm]. unfold lastTs. rewrite Hm. cbn.
  apply (list_elem_of_fmap_2 tsOf). by apply last_Some_elem_of.
Qed.

Lemma lastTs_sorted (R : relation (option string))
    (chunks : list (list ArchiveMessage)) :
  Forall (λ c, c ≠ []) chunks →
  StronglySorted R (tsOf <$> concat chunks) →
  StronglySorted R (lastTs <$> chunks).
Proof.
  induction chunks as [|c cs IH]; intros Hne Hsorted; [constructor|].
  apply Forall_cons in Hne as [Hc Hcs].
  cbn [concat] in Hsorted. rewrite fmap_app in Hsorted.
  apply StronglySorted_app in Hsorted as (Hcross & _ & Hrest).
  cbn [fmap list_fmap]. constructor; [by apply IH|].
  apply Forall_fmap, Forall_forall. intros c' Hc'. cbn.
  apply Hcross; [by apply lastTs_elem|].
  assert (Hc'ne : c' ≠ []) by (eapply Forall_forall in Hcs; eauto).
  pose proof (lastTs_elem c' Hc'ne) as Hin.
  apply list_elem_of_fmap in Hin as (m & -> & Hm).
  apply (list_elem_of_fmap_2 tsOf), list_elem_of_In, in_concat.
  exists c'. by rewrite <- !list_elem_of_In.
Qed.

Lemma pages_boundaries (channel : Channel) (total k : nat)
    (chunks : list (list ArchiveMessage)) :
  (λ page, (wp_channel page, lastTs (wp_messages page)))
    <$> (pageOf channel total <$> entries_from k chunks)
  = boundaryOf channel <$> chunks.
Proof.
  revert k. induction chunks as [|c cs IH]; intros k; [done|].
  cbn. f_equal. apply IH.
Qed.

(** C8 (as amended).  The pages of a channel are written in page-index
    order.  For a channel with messages every page holds a non-empty slice
    of the collection, the slices together are the collection, and
    [recordPage] is invoked exactly once per page, in page-index order, with
    the channel id and the timestamp of the last message of the slice, that
    is, of the oldest message of the page before the display reversal.  For
    an empty channel the one page written records nothing.  Whatever order
    strongly sorts the timestamps of the collection (newest first) also
    sorts the recorded boundaries. *)
Theorem createHtmlForChannel_records (R : relation (option string))
    (getMessages : option string → list ArchiveMessage)
    (channel : Channel) (i total : nat) :
  let stored := getMessages (id channel) in
  let s := (createHtmlForChannel getMessages channel i total nothing_rendered).2 in
  wp_index <$> rs_written s = seq 0 (length (rs_written s))
  ∧ (stored = [] → rs_recorded s = [])
  ∧ (stored ≠ [] →
       Forall (λ page, wp_messages page ≠ []) (rs_written s)
       ∧ concat (wp_messages <$> rs_written s) = stored
       ∧ rs_recorded s =
           (λ page, (wp_channel page, lastTs (wp_messages page))) <$> rs_written s)
  ∧ (StronglySorted R (tsOf <$> stored) →
     StronglySorted R (snd <$> rs_recorded s)).
Proof.
  intros stored s. subst s. rewrite createHtmlForChannel_run. fold stored.
  assert (Hsize : (0 < MESSAGE_CHUNK)%nat) by (unfold MESSAGE_CHUNK; lia).
  pose proof (chunk_nonempty MESSAGE_CHUNK stored Hsize) as Hne.
  pose proof (chunk_concat MESSAGE_CHUNK stored Hsize) as Hconcat.
  destruct (chunk stored MESSAGE_CHUNK) as [|c cs] eqn:Hchunks.
  - cbn in Hconcat. rewrite <- Hconcat.
    split; [reflexivity|]. split; [reflexivity|]. split; [done|].
    intros _. constructor.
  - cbn [rs_recorded rs_written nothing_rendered app]. unfold entries.
    assert (Hstored : stored ≠ []).
    { intros Hempty. rewrite Hempty in Hconcat. cbn in Hconcat.
      apply app_eq_nil in Hconcat as [Hc _].
      apply Forall_cons in Hne as [Hc' _]. done. }
    set (chunks := c :: cs) in *.
    pose proof (pages_messages channel (length chunks) 0 chunks) as Hmessages.
    split.
    { rewrite pages_indices, !length_fmap.
      by rewrite <- (length_fmap snd), entries_from_snd. }
    split; [done|].
    split.
    + intros _. split; [|split].
      * rewrite <- Hmessages in Hne. apply (proj1 (Forall_fmap _ _ _)) in Hne.
        exact Hne.
      * by rewrite Hmessages.
      * symmetry. apply pages_boundaries.
    + intros Hsorted. rewrite <- list_fmap_compose.
      apply lastTs_sorted; [done | by rewrite Hconcat].
Qed.

Lemma newer_transitive : Transitive newer.
Proof. intros a b c. unfold newer. lia. Qed.

Lemma createHtmlForChannel_records_witness :
  StronglySorted newer
    (snd <$> rs_recorded
       (createHtmlForChannel (λ _, historyOf 1001) general 0 1 nothing_rendered).2).
Proof.
  destruct (createHtmlForChannel_records newer (λ _, historyOf 1001) general 0 1)
    as (_ & _ & _ & Hsorted).
  apply Hsorted.
  apply (@Sorted_StronglySorted _ _ newer_transitive).
  apply (bool_decide_unpack _). vm_compute. exact I.
Defined.

Example two_pages_two_boundaries :
  rs_recorded
    (createHtmlForChannel (λ _, historyOf 1001) general 0 1 nothing_rendered).2
  = [(Some "C1", Some "1700000001.000000"); (Some "C1", Some "1700000000.000000")].
Proof. vm_compute. reflexivity. Qed.

(** C8 (as stated) fails: the one page written for an empty channel is
    rendered without any invocation of [recordPage]. *)
Lemma empty_page_is_not_recorded :
  ¬ every_page_is_recorded emptyStore general.
Proof.
  unfold every_page_is_recorded. cbn. discriminate.
Qed.

(** * Further properties of the synchronizer *)

(** ** downloadUser, by cases *)

Lemma downloadUser_falsy {A} `{HasAuthor A} (R : Remote) (item : A) (s : DlState) :
  truthy (identifierOf item) = false →
  downloadUser R item s = (None, s).
Proof.
  intros Hfalsy. unfold downloadUser.
  destruct (identifierOf item) as [ident|]; [|reflexivity].
  rewrite Hfalsy. reflexivity.
Qed.

Lemma identifierOf_kind {A} `{HasAuthor A} (item : A) (ident : string) :
  identifierOf item = Some ident → ident ≠ "" →
  (author_user item = Some ident ∧ identifierTypeOf item = KUser)
  ∨ (truthy (author_user item) = false ∧ author_bot_id item = Some ident
     ∧ identifierTypeOf item = KBot).
Proof.
  unfold identifierOf, identifierTypeOf, js_or. intros Hid Hne.
  destruct (truthy (author_user item)) eqn:Huser; [left | right]; done.
Qed.

Lemma downloadUser_outcome {A} `{HasAuthor A} (R : Remote) (item : A) (s : DlState) :
  UserOutcome R item s (downloadUser R item s).1 (downloadUser R item s).2.
Proof.
  destruct (truthy (identifierOf item)) eqn:Htruthy.
  - destruct (identifierOf item) as [ident|] eqn:Hid; [|discriminate].
    apply truthy_Some in Htruthy.
    destruct (st_users s !! ident) as [u|] eqn:Hu.
    + rewrite (downloadUser_cached R item ident u) by assumption.
      by eapply CacheHit.
    + destruct (entity_info R (identifierTypeOf item) ident) as [u|] eqn:Hr.
      * rewrite (downloadUser_found R item ident u) by assumption.
        by eapply Fetched.
      * rewrite (downloadUser_missing R item ident) by assumption.
        by eapply Unknown.
  - rewrite downloadUser_falsy by assumption. by apply NoIdentifier.
Qed.

(** X1.  The users cache is append-only under [downloadUser]: no entry is removed
    or replaced, and no key other than the item's identifier is touched. *)
Theorem downloadUser_cache_grows {A} `{HasAuthor A}
    (R : Remote) (item : A) (s : DlState) :
  let s' := (downloadUser R item s).2 in
  st_users s ⊆ st_users s'
  ∧ ∀ k, identifierOf item ≠ Some k → st_users s' !! k = st_users s !! k.
Proof.
  cbn zeta. destruct (downloadUser_outcome R item s) as [?|ident u Hid|ident u Hid ? Hu|];
    cbn [st_users]; try (split; done).
  split; [by apply insert_subseteq|].
  intros k Hk. apply lookup_insert_ne. congruence.
Qed.

(** X2.  Whatever record [downloadUser] returns is, on return, the cache entry of
    the item's identifier. *)
Theorem downloadUser_result_cached {A} `{HasAuthor A}
    (R : Remote) (item : A) (s : DlState) (u : User) :
  (downloadUser R item s).1 = Some u →
  ∃ ident, identifierOf item = Some ident
           ∧ st_users (downloadUser R item s).2 !! ident = Some u.
Proof.
  intros Hres.
  destruct (downloadUser_outcome R item s) as [?|ident v Hid ? Hv|ident v Hid ? ? ?|];
    try discriminate; injection Hres as ->; exists ident; split; try done.
  cbn. apply lookup_insert_eq.
Qed.

Lemma downloadUser_result_cached_witness :
  ∃ ident, identifierOf (mkMessage "100.000200" "U1") = Some ident
           ∧ st_users (downloadUser (slackRemote [] [] directory)
                         (mkMessage "100.000200" "U1") (initial ∅)).2 !! ident
             = Some alice.
Proof.
  exact (downloadUser_result_cached (slackRemote [] [] directory)
           (mkMessage "100.000200" "U1") (initial ∅) alice eq_refl).
Defined.

(** X3.  [downloadUser] issues at most one request, and only for an identifier
    that is not cached: through the user endpoint with the [user] field when
    that field is set, through the bot endpoint with the [bot_id] field
    otherwise. *)
Theorem downloadUser_lookup_kind {A} `{HasAuthor A}
    (R : Remote) (item : A) (s : DlState) :
  let s' := (downloadUser R item s).2 in
  st_calls s' = st_calls s
  ∨ (∃ u, author_user item = Some u ∧ u ≠ ""
          ∧ st_users s !! u = None
          ∧ st_calls s' = st_calls s ++ [InfoLookup KUser u])
  ∨ (∃ b, truthy (author_user item) = false ∧ author_bot_id item = Some b ∧ b ≠ ""
          ∧ st_users s !! b = None
          ∧ st_calls s' = st_calls s ++ [InfoLookup KBot b]).
Proof.
  cbn zeta.
  destruct (downloadUser_outcome R item s)
    as [?|ident u Hid|ident u Hid Hne Hu _|ident Hid Hne Hu _];
    cbn [st_calls]; [by left | by left | |];
    (right; destruct (identifierOf_kind item ident Hid Hne) as [[Hf ->]|(Hf & Hb & ->)];
     [left | right]; eauto 10).
Qed.

(** ** downloadMessages and downloadReplies at their edges *)

(** X4.  A channel without an id (absent or empty) is not synchronized:
    whatever the archive and the remote hold, the result is empty, nothing
    is requested and the state is kept. *)
Theorem downloadMessages_without_id (R : Remote)
    (getMessages : option string → list ArchiveMessage)
    (channel : Channel) (i n : nat) (s : DlState) :
  truthy (id channel) = false →
  downloadMessages R getMessages channel i n s = ({| messages := []; new := 0 |}, s).
Proof.
  intros Hid. unfold downloadMessages.
  destruct (id channel); [rewrite Hid|]; reflexivity.
Qed.

Lemma downloadMessages_without_id_witness :
  downloadMessages workspace (λ _, twoStored) (mkChannel None) 0 1 (initial ∅)
    = ({| messages := []; new := 0 |}, initial ∅).
Proof.
  exact (downloadMessages_without_id workspace (λ _, twoStored) (mkChannel None)
           0 1 (initial ∅) eq_refl).
Defined.

(** X5.  The new-message count is the number of messages put in front of the
    persisted collection: dropping that many messages from the merged
    collection leaves the persisted one, in its order.  The users cache is
    not touched. *)
Theorem downloadMessages_count (R : Remote)
    (getMessages : option string → list ArchiveMessage)
    (channel : Channel) (i n : nat) (s : DlState) (cid : string) :
  id channel = Some cid → cid ≠ "" →
  let stored := getMessages (Some cid) in
  let result := (downloadMessages R getMessages channel i n s).1 in
  length (messages result) = (new result + length stored)%nat
  ∧ drop (new result) (messages result) = stored
  ∧ st_users (downloadMessages R getMessages channel i n s).2 = st_users s.
Proof.
  intros Hid Hne stored result. subst result.
  rewrite (downloadMessages_run R getMessages channel i n s cid Hid Hne).
  cbn [fst snd st_users]. fold stored.
  set (pages := conversations_history R cid (historyCursor stored)).
  destruct (foldl_mergePage pages {| messages := stored; new := 0 |}) as [-> ->].
  cbn [messages new].
  assert (Hlen : length (archive <$> delivered (reverse pages))
                 = length (delivered pages)).
  { rewrite length_fmap. apply Permutation_length, delivered_reverse. }
  split; [rewrite length_app; lia|]. split; [|reflexivity].
  rewrite <- Hlen. cbn [Nat.add]. apply drop_app_length.
Qed.

Lemma downloadMessages_count_witness :
  let result :=
    (downloadMessages busyWorkspace (λ _, twoStored) general 0 1 (initial ∅)).1 in
  new result = 1%nat
  ∧ length (messages result) = 3%nat
  ∧ drop 1 (messages result) = twoStored.
Proof.
  destruct (downloadMessages_count busyWorkspace (λ _, twoStored) general 0 1
              (initial ∅) "C1" eq_refl ltac:(discriminate)) as (Hlen & Hdrop & _).
  assert (Hnew : new (downloadMessages busyWorkspace (λ _, twoStored) general 0 1
                        (initial ∅)).1 = 1%nat) by reflexivity.
  rewrite Hnew in Hlen, Hdrop.
  split; [exact Hnew|]. split; [exact Hlen | exact Hdrop].
Defined.

(** X6.  [downloadReplies] answers with no replies, without any request, when
    the channel has no id, the message no timestamp, or the message no
    reply count (absent or 0) -- whatever replies are stored. *)
Theorem downloadReplies_guards (R : Remote) (channel : Channel)
    (message : ArchiveMessage) (s : DlState) :
  truthy (id channel) = false ∨ truthy (tsOf message) = false
  ∨ truthyNum (reply_count (base message)) = false →
  downloadReplies R channel message s = ([], s).
Proof.
  unfold tsOf, downloadReplies. intros Hguard.
  destruct (id channel) as [cid|]; [|reflexivity].
  destruct (ts (base message)) as [mts|]; [|reflexivity].
  destruct (truthy (Some cid)); [|reflexivity].
  destruct (truthy (Some mts)); [|reflexivity].
  destruct Hguard as [?|[?|Hcount]]; try discriminate.
  rewrite Hcount. reflexivity.
Qed.

Lemma downloadReplies_guards_witness :
  downloadReplies threadWorkspace general (archive oneMessage) (initial ∅)
    = ([], initial ∅).
Proof.
  apply downloadReplies_guards. right. right. reflexivity.
Defined.

Lemma downloadReplies_fetch_witness :
  downloadReplies threadWorkspace general partialThread (initial ∅)
    = ([reply2; reply3],
       {| st_users := ∅;
          st_calls := [RepliesFetch "C1" "100.000100" (Some "101.000000")] |}).
Proof.
  exact (downloadReplies_fetch threadWorkspace general partialThread
           "C1" "100.000100" 3 (initial ∅)
           eq_refl ltac:(discriminate) eq_refl ltac:(discriminate)
           eq_refl ltac:(discriminate) eq_refl).
Defined.

(** X8.  [downloadReplies] never touches the users cache and issues at most one
    request, a replies request for this channel and this message. *)
Theorem downloadReplies_effects (R : Remote) (channel : Channel)
    (message : ArchiveMessage) (s : DlState) :
  let s' := (downloadReplies R channel message s).2 in
  st_users s' = st_users s
  ∧ (st_calls s' = st_calls s
     ∨ ∃ cid mts oldest,
         id channel = Some cid ∧ tsOf message = Some mts
         ∧ st_calls s' = st_calls s ++ [RepliesFetch cid mts oldest]).
Proof.
  unfold tsOf, downloadReplies.
  destruct (id channel) as [cid|]; [|by split; [|left]].
  destruct (ts (base message)) as [mts|]; [|by split; [|left]].
  destruct (negb (truthy (Some cid)) || negb (truthy (Some mts)));
    [by split; [|left]|].
  destruct (negb (truthyNum (reply_count (base message)))); [by split; [|left]|].
  destruct (haveAllReplies message _); [by split; [|left]|].
  split; [reflexivity|]. right. eexists _, _, _. repeat split; reflexivity.
Qed.

(** ** downloadExtras *)

Lemma downloadReplies_frame (R : Remote) (channel : Channel)
    (message : ArchiveMessage) (s : DlState) :
  st_users (downloadReplies R channel message s).2 = st_users s.
Proof.
  unfold downloadReplies.
  repeat match goal with
         | |- context [match ?x with _ => _ end] => destruct x
         end; reflexivity.
Qed.

Lemma author_phase (R : Remote) (m : ArchiveMessage) (s : DlState) :
  let s' := (authorPhase R m s).2 in
  st_users s ⊆ st_users s'
  ∧ (∀ ident, identifierOf m = Some ident → ident ≠ "" →
       st_users s' !! ident =
         match st_users s !! ident with
         | Some u => Some u
         | None => entity_info R (identifierTypeOf m) ident
         end)
  ∧ (∀ k, identifierOf m ≠ Some k → st_users s' !! k = st_users s !! k)
  ∧ ((truthy (identifierOf m) = false
      ∨ ∃ ident, identifierOf m = Some ident ∧ is_Some (st_users s !! ident)) →
     s' = s).
Proof.
  cbn zeta. unfold authorPhase. rewrite bind_run. unfold getUsers. cbv beta iota.
  destruct (identifierOf m) as [ident|] eqn:Hid.
  2:{ rewrite ret_run. cbn [snd]. repeat split; try done. }
  destruct (truthy (Some ident)) eqn:Htruthy.
  2:{ cbn [andb]. rewrite ret_run. cbn [snd]. repeat split; try done.
      intros k [= <-] Hne. apply truthy_Some in Hne. congruence. }
  apply truthy_Some in Htruthy. cbn [andb].
  case_bool_decide as Hcached.
  2:{ rewrite ret_run. cbn [snd]. repeat split; try done.
      intros k [= <-] _. destruct (st_users s !! ident); done. }
  rewrite bind_run.
  pose proof (downloadUser_outcome R m s) as Hout.
  destruct (downloadUser R m s) as [usr s1]. cbn [fst snd] in Hout.
  destruct Hout as [Hno|k u Hk _ Hu|k u Hk _ _ Hr|k Hk _ _ Hr].
  - rewrite Hid in Hno. apply truthy_Some in Htruthy. congruence.
  - rewrite Hid in Hk. injection Hk as <-. congruence.
  - rewrite Hid in Hk. injection Hk as <-.
    cbn [setUser snd st_users]. rewrite insert_insert_eq. repeat split.
    + by apply insert_subseteq.
    + intros k [= <-] _. by rewrite lookup_insert_eq, Hcached, Hr.
    + intros k Hne. apply lookup_insert_ne. congruence.
    + intros [Hf|(k & [= <-] & [v Hv])]; [discriminate | congruence].
  - rewrite Hid in Hk. injection Hk as <-.
    rewrite ret_run. cbn [snd st_users]. repeat split; try done.
    + intros k [= <-] _. by rewrite Hcached, Hr.
    + intros [Hf|(k & [= <-] & [v Hv])]; [discriminate | congruence].
Qed.

Lemma downloadExtrasStep_run (R : Remote) (channel : Channel)
    (message : ArchiveMessage) (s : DlState) :
  downloadExtrasStep R channel message s =
    if isThread message
    then let '(rs, s1) := downloadReplies R channel message s in
         (with_replies message rs, (authorPhase R (with_replies message rs) s1).2)
    else (message, (authorPhase R message s).2).
Proof.
  unfold downloadExtrasStep, authorPhase. rewrite bind_run.
  destruct (isThread message).
  - rewrite bind_run. destruct (downloadReplies R channel message s) as [rs s1].
    rewrite ret_run, !bind_run. unfold getUsers. cbv beta iota.
    rewrite bind_run.
    destruct (match identifierOf (with_replies message rs) with _ => _ end s1).
    reflexivity.
  - rewrite ret_run, !bind_run. unfold getUsers. cbv beta iota.
    rewrite bind_run.
    destruct (match identifierOf message with _ => _ end s).
    reflexivity.
Qed.

Lemma downloadExtras_cons (R : Remote) (channel : Channel)
    (m : ArchiveMessage) (rest : list ArchiveMessage) (s : DlState) :
  downloadExtras R channel (m :: rest) s =
    let '(m', s1) := downloadExtrasStep R channel m s in
    let '(rest', s2) := downloadExtras R channel rest s1 in
    (m' :: rest', s2).
Proof.
  cbn [downloadExtras]. rewrite bind_run.
  destruct (downloadExtrasStep R channel m s) as [m' s1].
  rewrite bind_run. by destruct (downloadExtras R channel rest s1).
Qed.

Lemma downloadExtrasStep_spec (R : Remote) (channel : Channel)
    (m : ArchiveMessage) (s : DlState) :
  let m' := (downloadExtrasStep R channel m s).1 in
  let s' := (downloadExtrasStep R channel m s).2 in
  base m' = base m
  ∧ (isThread m = false → m' = m)
  ∧ st_users s ⊆ st_users s'
  ∧ (∀ ident, identifierOf m = Some ident → ident ≠ "" →
       st_users s' !! ident =
         match st_users s !! ident with
         | Some u => Some u
         | None => entity_info R (identifierTypeOf m) ident
         end)
  ∧ (∀ k, identifierOf m ≠ Some k → st_users s' !! k = st_users s !! k).
Proof.
  cbn zeta. rewrite downloadExtrasStep_run.
  destruct (isThread m).
  - pose proof (downloadReplies_frame R channel m s) as Hframe.
    destruct (downloadReplies R channel m s) as [rs s1]. cbn [fst snd] in *.
    destruct (author_phase R (with_replies m rs) s1) as (Hsub & Hres & Hother & _).
    rewrite Hframe in Hsub, Hres. repeat split; try done.
    intros k Hk. rewrite <- Hframe. by apply Hother.
  - destruct (author_phase R m s) as (Hsub & Hres & Hother & _).
    cbn [fst snd]. repeat split; done.
Qed.

Lemma downloadExtras_users_subseteq (R : Remote) (channel : Channel)
    (messages : list ArchiveMessage) (s : DlState) :
  st_users s ⊆ st_users (downloadExtras R channel messages s).2.
Proof.
  revert s. induction messages as [|m rest IH]; intros s; [done|].
  rewrite downloadExtras_cons.
  destruct (downloadExtrasStep_spec R channel m s) as (_ & _ & Hsub & _).
  destruct (downloadExtrasStep R channel m s) as [m' s1]. cbn [fst snd] in *.
  specialize (IH s1). destruct (downloadExtras R channel rest s1) as [rest' s2].
  cbn [snd] in *. by etrans.
Qed.

(** X9.  [downloadExtras] returns the messages it was given, in their order and
    with their fields: only the reply sequence of a thread parent can
    differ. *)
Theorem downloadExtras_keeps_messages (R : Remote) (channel : Channel)
    (messages : list ArchiveMessage) (s : DlState) :
  Forall2 (λ m m', base m' = base m ∧ (isThread m = false → m' = m))
    messages (downloadExtras R channel messages s).1.
Proof.
  revert s. induction messages as [|m rest IH]; intros s; [constructor|].
  rewrite downloadExtras_cons.
  destruct (downloadExtrasStep_spec R channel m s) as (Hbase & Hsame & _).
  destruct (downloadExtrasStep R channel m s) as [m' s1]. cbn [fst snd] in *.
  specialize (IH s1). destruct (downloadExtras R channel rest s1) as [rest' s2].
  cbn [fst] in *. by constructor.
Qed.

(** X10.  The users cache is append-only under [downloadExtras]: every entry is
    kept as it was, and a key that is new after the pass is the author
    identifier of one of the messages. *)
Theorem downloadExtras_cache_grows (R : Remote) (channel : Channel)
    (messages : list ArchiveMessage) (s : DlState) :
  let s' := (downloadExtras R channel messages s).2 in
  (∀ k u, st_users s !! k = Some u → st_users s' !! k = Some u)
  ∧ (∀ k, st_users s !! k = None → is_Some (st_users s' !! k) →
       ∃ m, m ∈ messages ∧ identifierOf m = Some k).
Proof.
  cbn zeta. split.
  { intros k u Hk. eapply lookup_weaken; [exact Hk|].
    apply downloadExtras_users_subseteq. }
  revert s. induction messages as [|m rest IH]; intros s k Hnone Hsome.
  { cbn in Hsome. rewrite Hnone in Hsome. by destruct Hsome. }
  rewrite downloadExtras_cons in Hsome.
  destruct (downloadExtrasStep_spec R channel m s) as (_ & _ & _ & _ & Hother).
  destruct (downloadExtrasStep R channel m s) as [m' s1]. cbn [fst snd] in *.
  specialize (IH s1 k).
  destruct (downloadExtras R channel rest s1) as [rest' s2]. cbn [snd] in *.
  destruct (decide (identifierOf m = Some k)) as [Hm|Hm].
  - exists m. split; [left | done].
  - rewrite <- (Hother k Hm) in Hnone.
    destruct (IH Hnone Hsome) as (m0 & Hin & Hid).
    exists m0. split; [by right | done].
Qed.

(** X11.  After [downloadExtras] the cache has an entry for the author of every
    message whose identifier was cached before or is known to the remote. *)
Theorem downloadExtras_resolves_authors (R : Remote) (channel : Channel)
    (messages : list ArchiveMessage) (s : DlState)
    (m : ArchiveMessage) (ident : string) :
  m ∈ messages →
  identifierOf m = Some ident → ident ≠ "" →
  is_Some (st_users s !! ident)
  ∨ is_Some (entity_info R (identifierTypeOf m) ident) →
  is_Some (st_users (downloadExtras R channel messages s).2 !! ident).
Proof.
  intros Hin Hid Hne. revert s.
  induction messages as [|m0 rest IH]; intros s Hknown; [by apply elem_of_nil in Hin|].
  rewrite downloadExtras_cons.
  destruct (downloadExtrasStep_spec R channel m0 s) as (_ & _ & Hsub & Hres & _).
  destruct (downloadExtrasStep R channel m0 s) as [m' s1]. cbn [fst snd] in *.
  pose proof (downloadExtras_users_subseteq R channel rest s1) as Hrest.
  apply elem_of_cons in Hin as [<-|Hin].
  - destruct (downloadExtras R channel rest s1) as [rest' s2]. cbn [snd] in *.
    assert (Hnow : is_Some (st_users s1 !! ident)).
    { rewrite (Hres ident Hid Hne).
      destruct (st_users s !! ident); [done|].
      destruct Hknown as [[? ?]|?]; done. }
    destruct Hnow as [u Hu]. exists u. by eapply lookup_weaken.
  - specialize (IH Hin s1).
    destruct (downloadExtras R channel rest s1) as [rest' s2]. cbn [snd] in *.
    apply IH. destruct Hknown as [[u Hu]|Hremote]; [left | by right].
    exists u. by eapply lookup_weaken.
Qed.

Lemma downloadExtras_resolves_authors_witness :
  is_Some (st_users (downloadExtras threadWorkspace general [partialThread]
                       (initial ∅)).2 !! "U1").
Proof.
  apply (downloadExtras_resolves_authors threadWorkspace general [partialThread]
           (initial ∅) partialThread "U1").
  - left.
  - reflexivity.
  - discriminate.
  - right. by eexists.
Defined.

(** X12.  A pass of [downloadExtras] over messages that are all up to date
    changes nothing and issues no request. *)
Theorem downloadExtras_quiet (R : Remote) (channel : Channel)
    (messages : list ArchiveMessage) (s : DlState) :
  Forall (upToDate channel (st_users s)) messages →
  downloadExtras R channel messages s = (messages, s).
Proof.
  induction 1 as [|m rest [Hthread Hauthor] _ IH]; [reflexivity|].
  rewrite downloadExtras_cons, downloadExtrasStep_run.
  assert (Hphase : (authorPhase R m s).2 = s).
  { by apply author_phase. }
  destruct (isThread m) eqn:Hparent.
  - destruct (Hthread eq_refl) as (Hcid & Hts & Hall).
    unfold tsOf in Hts.
    assert (Hcount : truthyNum (reply_count (base m)) = true).
    { unfold isThread in Hparent. destruct (reply_count (base m)) as [k|]; [|done].
      apply andb_prop in Hparent as [Hpos _]. apply Z.ltb_lt in Hpos.
      cbn. apply negb_true_iff, Z.eqb_neq. lia. }
    assert (Hreplies : downloadReplies R channel m s = (default [] (replies m), s)).
    { unfold downloadReplies.
      destruct (id channel) as [cid|]; [|discriminate].
      destruct (ts (base m)) as [mts|]; [|discriminate].
      rewrite Hcid, Hts, Hall, Hcount. reflexivity. }
    rewrite Hreplies.
    assert (Hsame : with_replies m (default [] (replies m)) = m).
    { unfold haveAllReplies in Hall. destruct m as [b [rs|]]; [reflexivity|discriminate]. }
    rewrite Hsame, Hphase, IH. reflexivity.
  - rewrite Hphase, IH. reflexivity.
Qed.

Lemma downloadExtras_quiet_witness :
  downloadExtras threadWorkspace general [completeThread; archive anonymous]
    (initial directory)
  = ([completeThread; archive anonymous], initial directory).
Proof.
  apply downloadExtras_quiet.
  constructor; [|constructor; [|constructor]].
  - split; [intros _; repeat split; reflexivity|].
    right. exists "U1". split; [reflexivity|]. by eexists.
  - split; [discriminate|]. left. reflexivity.
Defined.

(** * Further properties of the renderer *)

Section ChunkSizes.
Context {A : Type}.
Implicit Types (l : list A) (size : nat).
Local Open Scope nat_scope.

Lemma chunk_length size l :
  0 < size → length (chunk l size) = (length l + size - 1) / size.
Proof.
  intros Hsize.
  apply (chunk_induction size (λ l cs, length cs = (length l + size - 1) / size));
    [done | |].
  - cbn. symmetry. apply Nat.div_small. lia.
  - intros l' Hl' IH. cbn [length]. rewrite IH, length_drop.
    assert (0 < length l') by (destruct l'; [done | cbn; lia]).
    destruct (Nat.le_gt_cases (length l') size) as [Hle|Hgt].
    + replace (length l' - size + size - 1) with (size - 1) by lia.
      rewrite (Nat.div_small (size - 1)) by lia.
      apply (Nat.div_unique _ _ 1 (length l' - 1)); lia.
    + replace (length l' + size - 1) with ((length l' - size + size - 1) + 1 * size)
        by lia.
      rewrite Nat.div_add by lia. lia.
Qed.

Lemma chunk_full size l i c :
  0 < size → chunk l size !! i = Some c → S i < length (chunk l size) →
  length c = size.
Proof.
  intros Hsize. revert i c.
  apply (chunk_induction size
           (λ _ cs, ∀ i c, cs !! i = Some c → S i < length cs → length c = size));
    [done | |].
  - intros i c Hi. done.
  - intros l' Hl' IH [|j] c Hc Hlast.
    + injection Hc as <-. cbn [length] in Hlast.
      destruct (drop size l') as [|x rest] eqn:Hdrop.
      { rewrite chunk_nil in Hlast. cbn in Hlast. lia. }
      apply length_take_le.
      assert (Hlen : length (drop size l') = S (length rest)) by (by rewrite Hdrop).
      rewrite length_drop in Hlen. lia.
    + cbn in Hc, Hlast. apply (IH j c Hc). lia.
Qed.

Lemma entries_from_lookup k (cs : list A) j :
  entries_from k cs !! j = (λ c, (k + j, c)) <$> cs !! j.
Proof.
  revert k j. induction cs as [|c cs IH]; intros k [|j]; cbn; try done.
  - by rewrite Nat.add_0_r.
  - rewrite IH. by replace (S k + j) with (k + S j) by lia.
Qed.
End ChunkSizes.

(** ** Pages of one channel *)

Section Pages.
Local Open Scope nat_scope.

(** X17.  A channel of [n] messages is rendered on [n / 1000], rounded up, pages,
    and on one page when it has no message. *)
Theorem createHtmlForChannel_page_count
    (getMessages : option string → list ArchiveMessage)
    (channel : Channel) (i total : nat) :
  let stored := getMessages (id channel) in
  let pages :=
    rs_written (createHtmlForChannel getMessages channel i total nothing_rendered).2 in
  length pages = ((length stored + 999) / 1000) `max` 1.
Proof.
  intros stored pages. subst pages. rewrite createHtmlForChannel_run. fold stored.
  pose proof (chunk_length MESSAGE_CHUNK stored ltac:(unfold MESSAGE_CHUNK; lia))
    as Hlen.
  unfold MESSAGE_CHUNK in Hlen at 2 3.
  replace (length stored + 1000 - 1) with (length stored + 999) in Hlen by lia.
  rewrite <- Hlen.
  destruct (chunk stored MESSAGE_CHUNK) as [|c cs]; [reflexivity|].
  cbn [rs_written nothing_rendered app]. unfold entries.
  rewrite length_fmap, <- (length_fmap snd), entries_from_snd. cbn [length]. lia.
Qed.

(** X18.  Every page but the last one of a channel holds exactly 1000 messages. *)
Theorem createHtmlForChannel_full_pages
    (getMessages : option string → list ArchiveMessage)
    (channel : Channel) (i total : nat) (k : nat) (page : WrittenPage) :
  let pages :=
    rs_written (createHtmlForChannel getMessages channel i total nothing_rendered).2 in
  pages !! k = Some page → (S k < length pages)%nat →
  length (wp_messages page) = 1000%nat.
Proof.
  intros pages. subst pages. rewrite createHtmlForChannel_run.
  set (stored := getMessages (id channel)).
  destruct (chunk stored MESSAGE_CHUNK) as [|c cs] eqn:Hchunks.
  { cbn. intros _ Hk. lia. }
  cbn [rs_written nothing_rendered app]. unfold entries.
  rewrite <- Hchunks. intros Hpage Hk.
  assert (Hslice : chunk stored MESSAGE_CHUNK !! k = Some (wp_messages page)).
  { rewrite <- (pages_messages channel (length (chunk stored MESSAGE_CHUNK)) 0
                  (chunk stored MESSAGE_CHUNK)) at 1.
    by rewrite list_lookup_fmap, Hpage. }
  apply (chunk_full MESSAGE_CHUNK stored k); [unfold MESSAGE_CHUNK; lia | done |].
  by rewrite length_fmap, <- (length_fmap snd), entries_from_snd in Hk.
Qed.

Lemma createHtmlForChannel_full_pages_witness :
  length (wp_messages (pageOf general 2 (0, take 1000 (historyOf 1001)))) = 1000.
Proof.
  apply (createHtmlForChannel_full_pages (λ _, historyOf 1001) general 0 1 0).
  - vm_compute. reflexivity.
  - vm_compute. lia.
Defined.

Lemma MessagesPage_display (channel : Channel) (slice : list ArchiveMessage)
    (index total : nat) :
  slice ≠ [] →
  mp_messages_list (MessagesPage channel slice index total)
    = reverse ((λ m, ParentMessage m (id channel)) <$> slice).
Proof.
  intros Hne. unfold MessagesPage. cbn [mp_messages_list].
  rewrite length_reverse, length_fmap.
  destruct slice; [done | reflexivity].
Qed.

Lemma pages_display (channel : Channel) (total k : nat)
    (chunks : list (list ArchiveMessage)) :
  Forall (λ c, c ≠ []) chunks →
  mjoin (reverse ((λ page, mp_messages_list (wp_view page))
                    <$> (pageOf channel total <$> entries_from k chunks)))
  = reverse ((λ m, ParentMessage m (id channel)) <$> concat chunks).
Proof.
  revert k. induction chunks as [|c cs IH]; intros k Hne; [reflexivity|].
  apply Forall_cons in Hne as [Hc Hcs].
  cbn [entries_from fmap list_fmap concat].
  rewrite reverse_cons, join_app, IH by done.
  cbn [pageOf wp_view fst snd mjoin list_join]. rewrite app_nil_r.
  rewrite MessagesPage_display by done.
  by rewrite fmap_app, reverse_app.
Qed.

(** X20.  Read from the last page to page 0, each page from top to bottom, a
    channel with messages shows its whole collection exactly once, oldest
    message first. *)
Theorem createHtmlForChannel_reading_order
    (getMessages : option string → list ArchiveMessage)
    (channel : Channel) (i total : nat) :
  let stored := getMessages (id channel) in
  let pages :=
    rs_written (createHtmlForChannel getMessages channel i total nothing_rendered).2 in
  stored ≠ [] →
  mjoin (reverse ((λ page, mp_messages_list (wp_view page)) <$> pages))
    = reverse ((λ m, ParentMessage m (id channel)) <$> stored).
Proof.
  intros stored pages Hstored. subst pages.
  rewrite createHtmlForChannel_run. fold stored.
  assert (Hsize : (0 < MESSAGE_CHUNK)%nat) by (unfold MESSAGE_CHUNK; lia).
  pose proof (chunk_nonempty MESSAGE_CHUNK stored Hsize) as Hne.
  pose proof (chunk_concat MESSAGE_CHUNK stored Hsize) as Hconcat.
  destruct (chunk stored MESSAGE_CHUNK) as [|c cs] eqn:Hchunks.
  { cbn in Hconcat. congruence. }
  cbn [rs_written nothing_rendered app]. unfold entries.
  by rewrite pages_display, Hconcat.
Qed.

Lemma createHtmlForChannel_reading_order_witness :
  mjoin (reverse ((λ page, mp_messages_list (wp_view page))
     <$> rs_written (createHtmlForChannel (λ _, twoStored) general 0 1
                       nothing_rendered).2))
  = reverse ((λ m, ParentMessage m (Some "C1")) <$> twoStored).
Proof.
  apply (createHtmlForChannel_reading_order (λ _, twoStored) general 0 1).
  discriminate.
Defined.

(** ** Navigation *)

(** X21.  Unless there is exactly one page, the jump bar has one link per page
    index from 0 to [total - 1], in order, each to that page of the same
    channel, and only the link of the page shown is marked current. *)
Theorem Pagination_jump_bar (channelId : option string) (index total : nat) :
  total ≠ 1 →
  ∃ bar,
    Pagination channelId index total = Some bar
    ∧ jump_key <$> pg_jumper bar = seq 0 total
    ∧ jump_href <$> pg_jumper bar
      = (λ ji, {| href_channel := channelId; href_page := ji |}) <$> seq 0 total
    ∧ jump_className <$> pg_jumper bar = <[index := "current"]> (replicate total "").
Proof.
  intros Htotal. unfold Pagination.
  destruct (Nat.eqb_spec total 1) as [|_]; [done|].
  eexists. split; [reflexivity|]. cbn [pg_jumper].
  rewrite <- !list_fmap_compose. split; [|split].
  - rewrite <- (list_fmap_id (seq 0 total)) at 2. reflexivity.
  - reflexivity.
  - apply list_eq. intros j.
    rewrite list_lookup_fmap, list_lookup_insert, length_replicate.
    destruct (Nat.lt_ge_cases j total) as [Hlt|Hge].
    + rewrite lookup_seq_lt, lookup_replicate_2 by done. cbn.
      destruct (Nat.eqb_spec j index) as [->|Hne].
      * by rewrite decide_True.
      * rewrite decide_False; [done | intros [? _]; congruence].
    + rewrite lookup_seq_ge by done. cbn.
      rewrite decide_False by lia.
      symmetry. apply lookup_ge_None_2. by rewrite length_replicate.
Qed.

Lemma Pagination_jump_bar_witness :
  ∃ bar,
    Pagination (Some "C1") 1 3 = Some bar
    ∧ jump_key <$> pg_jumper bar = [0; 1; 2]
    ∧ jump_href <$> pg_jumper bar
      = (λ ji, {| href_channel := Some "C1"; href_page := ji |}) <$> [0; 1; 2]
    ∧ jump_className <$> pg_jumper bar = [""; "current"; ""].
Proof.
  exact (Pagination_jump_bar (Some "C1") 1 3 ltac:(discriminate)).
Defined.

Lemma Pagination_in_range (channelId : option string) (index total : nat)
    (bar : PaginationView) (link : Href) :
  index < total →
  Pagination channelId index total = Some bar →
  link ∈ linksOf bar →
  href_channel link = channelId ∧ href_page link < total.
Proof.
  intros Hindex. unfold Pagination.
  destruct (total =? 1); [done|]. intros [= <-]. unfold linksOf.
  cbn [pg_newer pg_older pg_jumper].
  rewrite !elem_of_app. intros [Hnewer|[Holder|Hjump]].
  - destruct (Nat.ltb_spec 0 index); cbn in Hnewer; [|by apply elem_of_nil in Hnewer].
    apply list_elem_of_singleton in Hnewer as ->. cbn. split; [done | lia].
  - destruct (Nat.ltb_spec (index + 1) total); cbn in Holder;
      [|by apply elem_of_nil in Holder].
    apply list_elem_of_singleton in Holder as ->. cbn. split; [done | lia].
  - rewrite <- list_fmap_compose in Hjump.
    apply list_elem_of_fmap in Hjump as (ji & -> & Hji).
    apply elem_of_seq in Hji. cbn. split; [done | lia].
Qed.

(** X23.  No link of a pagination bar dangles: on every page written for a
    channel, the older, newer and jump links all point to pages written for
    that channel. *)
Theorem createHtmlForChannel_links_resolve
    (getMessages : option string → list ArchiveMessage)
    (channel : Channel) (i total : nat)
    (page : WrittenPage) (bar : PaginationView) (link : Href) :
  let pages :=
    rs_written (createHtmlForChannel getMessages channel i total nothing_rendered).2 in
  page ∈ pages →
  hd_pagination (mp_header (wp_view page)) = Some bar →
  link ∈ linksOf bar →
  ∃ target, target ∈ pages
            ∧ wp_channel target = href_channel link
            ∧ wp_index target = href_page link.
Proof.
  intros pages. subst pages. rewrite createHtmlForChannel_run.
  destruct (chunk (getMessages (id channel)) MESSAGE_CHUNK) as [|c cs] eqn:Hchunks.
  { cbn [rs_written nothing_rendered app]. intros Hpage%list_elem_of_singleton.
    subst page. cbn. intros [= <-] Hlink. by apply elem_of_nil in Hlink. }
  rewrite <- Hchunks. set (chunks := chunk _ _) in *.
  cbn [rs_written nothing_rendered app]. unfold entries.
  intros Hpage Hbar Hlink.
  apply list_elem_of_fmap in Hpage as ([k slice] & -> & Hentry).
  apply list_elem_of_lookup in Hentry as [j Hj].
  rewrite entries_from_lookup in Hj.
  destruct (chunks !! j) as [slice'|] eqn:Hslice; [|done].
  injection Hj as <- <-. cbn in Hbar.
  assert (Hk : j < length chunks) by (by eapply lookup_lt_Some).
  destruct (Pagination_in_range _ _ _ _ _ Hk Hbar Hlink) as [Hchannel Hrange].
  destruct (lookup_lt_is_Some_2 chunks (href_page link) Hrange) as [target Htarget].
  exists (pageOf channel (length chunks) (href_page link, target)).
  split; [|by split].
  apply list_elem_of_fmap_2, list_elem_of_lookup.
  exists (href_page link). by rewrite entries_from_lookup, Htarget.
Qed.

Lemma createHtmlForChannel_links_resolve_witness :
  ∃ target,
    target ∈ rs_written (createHtmlForChannel (λ _, historyOf 1001) general 0 1
                           nothing_rendered).2
    ∧ wp_channel target = Some "C1" ∧ wp_index target = 1.
Proof.
  eapply (createHtmlForChannel_links_resolve (λ _, historyOf 1001) general 0 1
            (pageOf general 2 (0, take 1000 (historyOf 1001))) _
            {| href_channel := Some "C1"; href_page := 1 |}).
  - apply (list_elem_of_lookup_2 _ 0). vm_compute. reflexivity.
  - vm_compute. reflexivity.
  - unfold linksOf. cbn. left.
Defined.

(** X19.  A channel of at most 1000 messages is rendered on a single page holding
    them all.  With at least one message the page has no pagination bar;
    for an empty channel the page total is 0, not 1, and the bar is rendered
    with no link at all. *)
Theorem createHtmlForChannel_one_page
    (getMessages : option string → list ArchiveMessage)
    (channel : Channel) (i total : nat) :
  let stored := getMessages (id channel) in
  let pages :=
    rs_written (createHtmlForChannel getMessages channel i total nothing_rendered).2 in
  length stored ≤ 1000 →
  ∃ page,
    pages = [page]
    ∧ wp_index page = 0
    ∧ wp_messages page = stored
    ∧ hd_pagination (mp_header (wp_view page))
      = match stored with
        | [] => Some {| pg_newer := None; pg_sep := None; pg_older := None;
                        pg_jumper := [] |}
        | _ :: _ => None
        end.
Proof.
  intros stored pages Hlen. subst pages.
  rewrite createHtmlForChannel_run. fold stored.
  destruct stored as [|m rest] eqn:Hstored.
  { rewrite chunk_nil. eexists. repeat split; reflexivity. }
  unfold MESSAGE_CHUNK. rewrite chunk_cons by (done || lia).
  rewrite drop_ge, chunk_nil, take_ge by lia.
  eexists. repeat split; reflexivity.
Qed.

Lemma createHtmlForChannel_one_page_witness :
  ∃ page,
    rs_written (createHtmlForChannel (λ _, twoStored) general 0 1 nothing_rendered).2
      = [page]
    ∧ wp_index page = 0
    ∧ wp_messages page = twoStored
    ∧ hd_pagination (mp_header (wp_view page)) = None.
Proof.
  exact (createHtmlForChannel_one_page (λ _, twoStored) general 0 1
           ltac:(cbn; lia)).
Defined.

(** ** Pages of all channels *)

Lemma createHtmlForChannel_appends
    (getMessages : option string → list ArchiveMessage)
    (channel : Channel) (i total : nat) (s : RenderState) :
  rs_written (createHtmlForChannel getMessages channel i total s).2
  = rs_written s
    ++ rs_written (createHtmlForChannel getMessages channel i total nothing_rendered).2.
Proof.
  rewrite !createHtmlForChannel_run.
  by destruct (chunk (getMessages (id channel)) MESSAGE_CHUNK).
Qed.

Lemma createHtmlForChannel_shape
    (getMessages : option string → list ArchiveMessage)
    (channel : Channel) (i total : nat) :
  let pages :=
    rs_written (createHtmlForChannel getMessages channel i total nothing_rendered).2 in
  (∃ page rest, pages = page :: rest ∧ wp_index page = 0)
  ∧ Forall (λ page, wp_channel page = id channel) pages.
Proof.
  cbn zeta. rewrite createHtmlForChannel_run.
  destruct (chunk (getMessages (id channel)) MESSAGE_CHUNK) as [|c cs].
  - split; [by eexists _, _ | by repeat constructor].
  - cbn [rs_written nothing_rendered app]. split; [by eexists _, _|].
    apply Forall_fmap, Forall_forall. by intros [k slice] _.
Qed.

Lemma channels_loop
    (getMessages : option string → list ArchiveMessage)
    (n k : nat) (channels : list Channel) (s : RenderState) :
  rs_written
    (for_each (entries_from k channels)
       (λ '(i, channel),
          if negb (truthy (id channel)) then mret tt
          else createHtmlForChannel getMessages channel i n) s).2
  = rs_written s
    ++ mjoin ((λ '(i, channel),
                 if truthy (id channel)
                 then rs_written
                        (createHtmlForChannel getMessages channel i n
                           nothing_rendered).2
                 else []) <$> entries_from k channels).
Proof.
  revert k s. induction channels as [|channel rest IH]; intros k s.
  - cbn. by rewrite app_nil_r.
  - cbn [entries_from for_each fmap list_fmap mjoin list_join]. rewrite bind_run.
    destruct (truthy (id channel)); cbn [negb].
    + pose proof (createHtmlForChannel_appends getMessages channel k n s) as Happ.
      destruct (createHtmlForChannel getMessages channel k n s) as [[] s1].
      cbn [snd] in Happ. rewrite IH, Happ. by rewrite <- app_assoc.
    + rewrite ret_run. by rewrite IH.
Qed.

(** X24.  Rendering a list of channels writes, for every channel with an id, at
    least its page 0; every page written belongs to a channel of the list
    that has an id, so a channel without an id gets no page. *)
Theorem createHtmlForChannels_pages
    (getChannels : list Channel)
    (getMessages : option string → list ArchiveMessage)
    (channels : list Channel) :
  let rendered := if length channels =? 0 then getChannels else channels in
  let written :=
    rs_written (createHtmlForChannels getChannels getMessages channels
                  nothing_rendered).2 in
  (∀ channel, channel ∈ rendered → truthy (id channel) = true →
     ∃ page, page ∈ written ∧ wp_channel page = id channel ∧ wp_index page = 0)
  ∧ (∀ page, page ∈ written →
       truthy (wp_channel page) = true
       ∧ ∃ channel, channel ∈ rendered ∧ id channel = wp_channel page).
Proof.
  intros rendered written. subst written. unfold createHtmlForChannels.
  fold rendered. unfold entries. rewrite channels_loop.
  cbn [rs_written nothing_rendered app].
  set (n := length rendered). clearbody n.
  set (pagesOf := λ '(i, channel), if truthy (id channel) then _ else _).
  enough (Hgen : ∀ k,
    (∀ channel, channel ∈ rendered → truthy (id channel) = true →
       ∃ page, page ∈ mjoin (pagesOf <$> entries_from k rendered)
               ∧ wp_channel page = id channel ∧ wp_index page = 0)
    ∧ (∀ page, page ∈ mjoin (pagesOf <$> entries_from k rendered) →
         truthy (wp_channel page) = true
         ∧ ∃ channel, channel ∈ rendered ∧ id channel = wp_channel page))
    by apply Hgen.
  subst pagesOf.
  induction rendered as [|c rest IH]; intros k.
  { split; [intros ? Hin; by apply elem_of_nil in Hin|].
    intros page Hin. by apply elem_of_nil in Hin. }
  cbn [entries_from fmap list_fmap mjoin list_join].
  destruct (IH (S k)) as [IHpages IHonly]. clear IH.
  destruct (createHtmlForChannel_shape getMessages c k n)
    as [(first & others & Hpages & Hzero) Hall].
  split.
  - intros channel [->|Hin]%elem_of_cons Hid.
    + rewrite Hid, Hpages. exists first. split; [left|].
      split; [|done]. rewrite Hpages in Hall. by apply Forall_cons in Hall as [? _].
    + destruct (IHpages channel Hin Hid) as (page & Hpage & ? & ?).
      exists page. split; [|done]. apply elem_of_app. by right.
  - intros page [Hhere|Hlater]%elem_of_app.
    + destruct (truthy (id c)) eqn:Hid; [|by apply elem_of_nil in Hhere].
      rewrite Forall_forall in Hall. rewrite (Hall page Hhere).
      split; [done|]. exists c. split; [left | done].
    + destruct (IHonly page Hlater) as [? (channel & ? & ?)].
      split; [done|]. exists channel. split; [by right | done].
Qed.
End Pages.

(** * Further properties of the channel directory *)

Lemma set_name_same (c : ListedChannel) : set_name c (name (listed c)) = c.
Proof. by destruct c as [[] ?]. Qed.

Lemma nameChannel_run (R : Remote) (c : ListedChannel) (s : DlState) :
  nameChannel R c s =
    let '(named, s') :=
      if is_im (listed c)
      then (set_name c (js_or (name (listed c))
                          (Some (counterpartName (downloadUser R (listed c) s).1))),
            (downloadUser R (listed c) s).2)
      else (c, s) in
    (if is_mpim (listed c) then set_name c (purpose_value c) else named, s').
Proof.
  unfold nameChannel. rewrite bind_run.
  destruct (is_im (listed c)).
  - rewrite bind_run. destruct (downloadUser R (listed c) s) as [u s1].
    rewrite ret_run. cbn [fst snd set_name listed is_mpim purpose_value].
    by destruct (is_mpim (listed c)).
  - rewrite ret_run. by destruct (is_mpim (listed c)).
Qed.

Lemma nameChannel_spec (R : Remote) (c : ListedChannel) (s : DlState) :
  let c' := (nameChannel R c s).1 in
  let s' := (nameChannel R c s).2 in
  c' = set_name c (name (listed c'))
  ∧ st_users s ⊆ st_users s'
  ∧ (is_im (listed c) = false → s' = s).
Proof.
  cbn zeta. rewrite nameChannel_run.
  destruct (is_im (listed c)) eqn:Him.
  - cbn [fst snd]. split; [|split; [|done]].
    + by destruct (is_mpim (listed c)).
    + destruct (downloadUser_outcome R (listed c) s); cbn [st_users]; try done.
      by apply insert_subseteq.
  - cbn [fst snd]. split; [|done].
    destruct (is_mpim (listed c)); [done|]. by rewrite set_name_same.
Qed.

Lemma map_each_cons {S A B} (f : A → StateM S B) (x : A) (l : list A) (s : S) :
  map_each f (x :: l) s =
    let '(y, s1) := f x s in
    let '(ys, s2) := map_each f l s1 in
    (y :: ys, s2).
Proof.
  cbn [map_each]. rewrite bind_run. destruct (f x s) as [y s1].
  rewrite bind_run. by destruct (map_each f l s1).
Qed.

Lemma named_channels (R : Remote) (l : list ListedChannel) (s : DlState) :
  let named := (map_each (nameChannel R) l s).1 in
  let s' := (map_each (nameChannel R) l s).2 in
  Forall2 (λ c c', c' = set_name c (name (listed c'))) l named
  ∧ st_users s ⊆ st_users s'
  ∧ (Forall (λ c, is_im (listed c) = false) l →
     s' = s
     ∧ named = (λ c, if is_mpim (listed c) then set_name c (purpose_value c) else c)
                 <$> l).
Proof.
  cbn zeta. revert s. induction l as [|c l IH]; intros s.
  { split; [constructor | done]. }
  rewrite map_each_cons.
  destruct (nameChannel_spec R c s) as (Hname & Hsub & Hquiet).
  pose proof (nameChannel_run R c s) as Hrun.
  destruct (nameChannel R c s) as [c' s1]. cbn [fst snd] in *.
  destruct (IH s1) as (Hnames & Hsub' & Hquiet').
  destruct (map_each (nameChannel R) l s1) as [named s2]. cbn [fst snd] in *.
  split; [by constructor|]. split; [by etrans|].
  intros [Him Hrest]%Forall_cons. specialize (Hquiet Him). subst s1.
  destruct (Hquiet' Hrest) as [-> ->]. split; [done|].
  cbn [fmap list_fmap]. f_equal.
  rewrite Him in Hrun. cbv beta iota in Hrun. by inversion Hrun.
Qed.

Lemma filter_hasId_app (l k : list ListedChannel) :
  List.filter hasId (l ++ k) = List.filter hasId l ++ List.filter hasId k.
Proof. apply List.filter_app. Qed.

Lemma downloadChannelsFrom_spec (R : Remote) (pages : list ChannelsPage)
    (found : list ListedChannel) (s : DlState) :
  let result := (downloadChannelsFrom R pages found s).1 in
  let s' := (downloadChannelsFrom R pages found s).2 in
  ∃ named,
    result = found ++ named
    ∧ Forall2 (λ c c', c' = set_name c (name (listed c')))
        (List.filter hasId (listedChannels pages)) named
    ∧ st_users s ⊆ st_users s'
    ∧ (Forall (λ c, is_im (listed c) = false) (listedChannels pages) →
       s' = s
       ∧ named = (λ c, if is_mpim (listed c) then set_name c (purpose_value c) else c)
                   <$> List.filter hasId (listedChannels pages)).
Proof.
  cbn zeta. revert found s. induction pages as [|page rest IH]; intros found s.
  { exists []. cbn. rewrite app_nil_r. repeat split; try done. }
  cbn [downloadChannelsFrom]. unfold listedChannels.
  cbn [fmap list_fmap mjoin list_join].
  change (mjoin (_ <$> rest)) with (listedChannels rest).
  unfold isChannels. destruct (page_channels page) as [cs|]; cbn [default from_option];
    unfold Datatypes.id.
  - rewrite bind_run.
    destruct (named_channels R (List.filter hasId cs) s) as (Hnames & Hsub & Hquiet).
    destruct (map_each (nameChannel R) (List.filter hasId cs) s) as [named s1].
    cbn [fst snd] in *. cbv beta iota.
    destruct (IH (found ++ named) s1) as (more & -> & Hmore & Hsub' & Hquiet').
    exists (named ++ more). rewrite filter_hasId_app, app_assoc.
    split; [done|]. split; [by apply Forall2_app|]. split; [by etrans|].
    intros [Hhere Hlater]%Forall_app.
    assert (Hfiltered : Forall (λ c, is_im (listed c) = false) (List.filter hasId cs)).
    { apply Forall_forall. intros c Hc%list_elem_of_In%List.filter_In.
      rewrite Forall_forall in Hhere. apply Hhere, list_elem_of_In, Hc. }
    destruct (Hquiet Hfiltered) as [-> ->].
    destruct (Hquiet' Hlater) as [-> ->]. by rewrite fmap_app.
  - cbn [app]. destruct (IH found s) as (more & -> & Hmore & Hsub' & Hquiet').
    exists more. split; [done|]. split; [done|]. by split.
Qed.

Lemma map_each_Forall {S A B} (f : A → StateM S B) (P : B → Prop) :
  (∀ x s, P (f x s).1) → ∀ l s, Forall P (map_each f l s).1.
Proof.
  intros Hf l. induction l as [|x l IH]; intros s; [constructor|].
  rewrite map_each_cons. specialize (Hf x s).
  destruct (f x s) as [y s1]. specialize (IH s1).
  destruct (map_each f l s1) as [ys s2]. by constructor.
Qed.

Lemma downloadChannelsFrom_Forall (R : Remote) (P : ListedChannel → Prop) :
  (∀ c s, P (nameChannel R c s).1) →
  ∀ pages found s,
    Forall P found → Forall P (downloadChannelsFrom R pages found s).1.
Proof.
  intros Hname pages. induction pages as [|page rest IH]; intros found s Hfound;
    [done|].
  cbn [downloadChannelsFrom]. destruct (isChannels page); [|by apply IH].
  rewrite bind_run.
  pose proof (map_each_Forall (nameChannel R) P Hname
                (List.filter hasId (default [] (page_channels page))) s) as Hnamed.
  destruct (map_each (nameChannel R) _ s) as [named s1].
  apply IH, Forall_app. by split.
Qed.

(** X13.  [downloadChannels] returns the listed channels that have an id, all of
    them and in the order of the listing, changed at most in their name;
    the users cache only grows. *)
Theorem downloadChannels_result (R : Remote) (listing : list ChannelsPage)
    (s : DlState) :
  let result := (downloadChannels R listing s).1 in
  Forall2 (λ c c', c' = set_name c (name (listed c')))
    (List.filter hasId (listedChannels listing)) result
  ∧ Forall (λ c', truthy (id (listed c')) = true) result
  ∧ st_users s ⊆ st_users (downloadChannels R listing s).2.
Proof.
  cbn zeta. unfold downloadChannels.
  destruct (downloadChannelsFrom_spec R listing [] s) as (named & -> & Hnamed & Hsub & _).
  cbn [app]. split; [done|]. split; [|done].
  apply Forall_forall. intros c' Hc'.
  apply list_elem_of_lookup in Hc' as [j Hj].
  destruct (Forall2_lookup_r _ _ _ _ _ Hnamed Hj) as (c & Hc & ->).
  apply list_elem_of_lookup_2, list_elem_of_In, List.filter_In in Hc as [_ Hid].
  exact Hid.
Qed.

(** X14.  A group conversation is always returned under the text of its purpose,
    whatever name it was listed with, and without a name when it has no
    purpose. *)
Theorem downloadChannels_group_names (R : Remote) (listing : list ChannelsPage)
    (s : DlState) (c' : ListedChannel) :
  c' ∈ (downloadChannels R listing s).1 →
  is_mpim (listed c') = true →
  name (listed c') = purpose_value c'.
Proof.
  intros Hin. revert c' Hin.
  apply (proj1 (Forall_forall
           (λ c', is_mpim (listed c') = true → name (listed c') = purpose_value c') _)).
  apply (downloadChannelsFrom_Forall R
           (λ c', is_mpim (listed c') = true → name (listed c') = purpose_value c'));
    [|constructor].
  intros c s0. rewrite nameChannel_run.
  destruct (is_im (listed c)); cbn [fst];
    destruct (is_mpim (listed c)) eqn:Hmpim; cbn; congruence.
Qed.

Lemma downloadChannels_group_names_witness :
  name (listed groupChat) = Some "mpdm-a--b-1"
  ∧ name (listed (set_name groupChat (Some "Group messaging with: @a @b")))
    = Some "Group messaging with: @a @b".
Proof.
  split; [reflexivity|].
  apply (downloadChannels_group_names (slackRemote [] [] directory)
           [ {| page_channels := Some [groupChat] |} ] (initial ∅)
           (set_name groupChat (Some "Group messaging with: @a @b")));
    [left | reflexivity].
Defined.

(** X15.  A listing without direct conversations is processed without any
    request and without touching the users cache: the channels with an id
    are returned as listed, the group conversations renamed to their
    purpose. *)
Theorem downloadChannels_without_direct (R : Remote) (listing : list ChannelsPage)
    (s : DlState) :
  Forall (λ c, is_im (listed c) = false) (listedChannels listing) →
  downloadChannels R listing s =
    ((λ c, if is_mpim (listed c) then set_name c (purpose_value c) else c)
       <$> List.filter hasId (listedChannels listing),
     s).
Proof.
  intros Hnone. unfold downloadChannels.
  destruct (downloadChannelsFrom_spec R listing [] s) as (named & Hres & _ & _ & Hquiet).
  destruct (Hquiet Hnone) as [Hs Hnamed].
  destruct (downloadChannelsFrom R listing [] s) as [result s'].
  cbn [fst snd app] in *. by subst.
Qed.

Lemma downloadChannels_without_direct_witness :
  downloadChannels (slackRemote [] [] directory)
    [ {| page_channels := Some [listedGeneral] |}; {| page_channels := None |};
      {| page_channels := Some [groupChat] |} ] (initial ∅)
  = ([listedGeneral; set_name groupChat (Some "Group messaging with: @a @b")],
     initial ∅).
Proof.
  apply (downloadChannels_without_direct (slackRemote [] [] directory)
           [ {| page_channels := Some [listedGeneral] |}; {| page_channels := None |};
             {| page_channels := Some [groupChat] |} ] (initial ∅)).
  repeat constructor.
Defined.

(** X16.  A direct conversation that is no group conversation keeps the name it
    was listed with.  Listed without a name, it is named after its
    counterpart, "name (real name)", and "undefined" when the counterpart
    cannot be resolved. *)
Theorem nameChannel_counterpart (R : Remote) (c : ListedChannel) (s : DlState) :
  is_im (listed c) = true → is_mpim (listed c) = false →
  let user := (downloadUser R (listed c) s).1 in
  let c' := (nameChannel R c s).1 in
  (truthy (name (listed c)) = true → c' = c)
  ∧ (truthy (name (listed c)) = false →
     (user = None → name (listed c') = Some "undefined")
     ∧ (∀ u n r, user = Some u →
          user_name u = Some n → user_real_name u = Some r → r ≠ "" →
          name (listed c') = Some (n +:+ " (" +:+ r +:+ ")"))).
Proof.
  intros Him Hmpim. cbn zeta. rewrite nameChannel_run, Him, Hmpim. cbn [fst].
  unfold js_or. split.
  - intros ->. apply set_name_same.
  - intros ->. cbn [set_name listed name]. split.
    + intros ->. reflexivity.
    + intros u n r -> Hn Hr Hne. unfold counterpartName. cbn.
      rewrite Hn, Hr. apply truthy_Some in Hne. rewrite Hne. reflexivity.
Qed.

Lemma nameChannel_counterpart_witness :
  name (listed (nameChannel (slackRemote [] [] directory) dmGhost (initial ∅)).1)
    = Some "undefined"
  ∧ name (listed (nameChannel (slackRemote [] [] directory) dmAlice (initial ∅)).1)
    = Some "alice (Alice)".
Proof.
  split.
  - apply (nameChannel_counterpart (slackRemote [] [] directory) dmGhost (initial ∅)
             eq_refl eq_refl); reflexivity.
  - destruct (nameChannel_counterpart (slackRemote [] [] directory) dmAlice (initial ∅)
                eq_refl eq_refl) as [_ Hunnamed].
    destruct (Hunnamed eq_refl) as [_ Hresolved].
    apply (Hresolved alice "alice" "Alice"); first [reflexivity | discriminate].
Defined.

(** * Further properties of the index and the navigation *)

Example replaceFirst_once :
  replaceFirst "  " " " "a  b  c" = "a b  c".
Proof. reflexivity. Qed.

Example group_link_name :
  cl_name <$> ChannelLink ∅ (Some alice)
    (listed (mkListed "G1" (Some "Group messaging with: @alice @bob") None None
               false true))
  = Some (Some "@bob").
Proof. reflexivity. Qed.

(** X25.  A channel is left out of the index exactly when the archive state
    records zero messages for it; a channel the archive state does not know
    is listed.  The link of a listed channel goes to page 0 of that channel,
    and a channel that is no group conversation is shown under its name, or
    under its id when it has no name. *)
Theorem ChannelLink_listed (archiveChannels : gmap string SlackArchiveChannelData)
    (me : option User) (channel : Channel) :
  (ChannelLink archiveChannels me channel = None
   ↔ ∃ d, archiveChannels !! interpolate (id channel) = Some d ∧ data_messages d = 0)
  ∧ ∀ link, ChannelLink archiveChannels me channel = Some link →
      cl_href link = {| href_channel := id channel; href_page := 0 |}
      ∧ (is_mpim channel = false → cl_name link = js_or (name channel) (id channel)).
Proof.
  unfold ChannelLink.
  destruct (archiveChannels !! interpolate (id channel)) as [d|] eqn:Hdata.
  - destruct (Z.eqb_spec (data_messages d) 0) as [Hzero|Hsome].
    + split; [|done]. split; [eauto | done].
    + split.
      * split; [by destruct (is_mpim channel)|].
        intros (d' & [= <-] & Hzero). done.
      * intros link. destruct (is_mpim channel) eqn:Hmpim.
        -- intros [= <-]. split; [done | done].
        -- destruct me; intros [= <-]; split; done.
  - split.
    + split; [by destruct (is_mpim channel) | by intros (d & ? & _)].
    + intros link. destruct (is_mpim channel) eqn:Hmpim.
      * intros [= <-]. split; done.
      * destruct me; intros [= <-]; split; done.
Qed.

(** X22.  On page [k] of a channel rendered on several pages the bar has a link
    to the newer page [k - 1] unless [k] is 0, a link to the older page
    [k + 1] unless [k] is the last page, and the separator between them
    exactly when it has both. *)
Theorem createHtmlForChannel_neighbours
    (getMessages : option string → list ArchiveMessage)
    (channel : Channel) (i total : nat) (k : nat) (page : WrittenPage) :
  let pages :=
    rs_written (createHtmlForChannel getMessages channel i total nothing_rendered).2 in
  (1 < length pages)%nat → pages !! k = Some page →
  ∃ bar,
    hd_pagination (mp_header (wp_view page)) = Some bar
    ∧ pg_newer bar
      = match k with
        | O => None
        | S k' => Some {| href_channel := id channel; href_page := k' |}
        end
    ∧ pg_older bar
      = (if decide (S k = length pages) then None
         else Some {| href_channel := id channel; href_page := S k |})
    ∧ pg_sep bar
      = (if decide (k ≠ 0%nat ∧ S k ≠ length pages) then Some " | " else None).
Proof.
  intros pages. subst pages. rewrite createHtmlForChannel_run.
  destruct (chunk (getMessages (id channel)) MESSAGE_CHUNK) as [|c cs] eqn:Hchunks.
  { cbn. lia. }
  rewrite <- Hchunks. set (chunks := chunk _ _) in *.
  cbn [rs_written nothing_rendered app]. unfold entries.
  rewrite length_fmap, <- (length_fmap snd), entries_from_snd.
  intros Hseveral Hpage.
  rewrite list_lookup_fmap, entries_from_lookup in Hpage.
  destruct (chunks !! k) as [slice|] eqn:Hslice; [|done].
  injection Hpage as <-.
  assert (Hk : (k < length chunks)%nat) by (by eapply lookup_lt_Some).
  cbn [pageOf wp_view MessagesPage mp_header Header hd_pagination fst snd Nat.add].
  unfold Pagination.
  destruct (Nat.eqb_spec (length chunks) 1) as [|_]; [lia|].
  eexists. split; [reflexivity|]. cbn [pg_newer pg_older pg_sep].
  destruct k as [|k'].
  - change (0 <? 0)%nat with false. change (0 + 1)%nat with 1%nat.
    destruct (Nat.ltb_spec 1 (length chunks)); [|lia].
    rewrite decide_False by lia. by rewrite decide_False by (intros [? _]; done).
  - replace (0 <? S k')%nat with true by (symmetry; apply Nat.ltb_lt; lia).
    replace (S k' - 1)%nat with k' by lia.
    replace (S k' + 1)%nat with (S (S k')) by lia.
    destruct (Nat.ltb_spec (S (S k')) (length chunks)).
    + rewrite decide_False by lia. by rewrite decide_True by lia.
    + rewrite decide_True by lia. by rewrite decide_False by lia.
Qed.

Lemma createHtmlForChannel_neighbours_witness :
  ∃ bar,
    hd_pagination (mp_header (wp_view
      (pageOf general 2 (1%nat, drop 1000 (historyOf 1001))))) = Some bar
    ∧ pg_newer bar = Some {| href_channel := Some "C1"; href_page := 0 |}
    ∧ pg_older bar = None
    ∧ pg_sep bar = None.
Proof.
  apply (createHtmlForChannel_neighbours (λ _, historyOf 1001) general 0 1 1
           (pageOf general 2 (1%nat, drop 1000 (historyOf 1001)))).
  - vm_compute. lia.
  - vm_compute. reflexivity.
Defined.
